(** * Aave V2 wallet credit scoring

    A shallow embedding of [generate_scores.py]: the feature engineer
    ([engineer_features]), the cluster scorer ([generate_credit_scores]) and
    the pipeline that runs them ([load_transaction_data], [main]), with the
    properties of the specification stated and settled against them.

    Python [float] is IEEE binary64, here Rocq's primitive [float]; Python
    [int] is [Z].  Exceptions are explicit: a computation returns [Ok v] or
    [Raise e].  The pieces of the run that belong to other packages (the
    interpreter's [float(str)], scikit-learn's scaler and k-means, the pandas
    group mean) are variables of the sections that use them. *)

From Stdlib Require Import ZArith Floats Ascii String.
From Stdlib Require Uint63.
From stdpp Require Import gmap strings list sorting.

(** ** Exceptions *)

Inductive exn :=
  | ValueError | KeyError | TypeError | OverflowError | ZeroDivisionError.

Inductive result (A : Type) :=
  | Ok (a : A)
  | Raise (e : exn).
Arguments Ok {A} a.
Arguments Raise {A} e.

#[global] Instance result_ret : MRet result := fun A a => Ok a.
#[global] Instance result_bind : MBind result := fun A B k m =>
  match m with
  | Ok a => k a
  | Raise e => Raise e
  end.

(** [for x in l: ...] where the body may raise. *)
Fixpoint mapR {A B} (f : A → result B) (l : list A) : result (list B) :=
  match l with
  | [] => Ok []
  | x :: l' => y ← f x; ys ← mapR f l'; Ok (y :: ys)
  end.

(** ** Python numbers *)

(** An integer as an (unrounded) binary float with exponent 0. *)
Definition Z2SF (z : Z) : spec_float :=
  match z with
  | Z0 => S754_zero false
  | Zpos p => S754_finite false p 0
  | Zneg p => S754_finite true p 0
  end.

(** [float(n)] for an [int]: round to nearest, ties to even; an [int] beyond
    the binary64 range raises [OverflowError]. *)
Definition float_of_int (z : Z) : result float :=
  match binary_normalize prec emax z 0 false with
  | S754_infinity _ => Raise OverflowError
  | s => Ok (SF2Prim s)
  end.

(** [a / b] on two [int]s: the correctly rounded quotient. *)
Definition int_truediv (a b : Z) : result float :=
  if bool_decide (b = 0%Z) then Raise ZeroDivisionError
  else match SFdiv prec emax (Z2SF a) (Z2SF b) with
       | S754_infinity _ => Raise OverflowError
       | s => Ok (SF2Prim s)
       end.

(** numpy's conversion of an int64 to float64 (no exception). *)
Definition float_of_int64 (z : Z) : float :=
  SF2Prim (binary_normalize prec emax z 0 false).

(** [astype(int)] on a float64: truncation toward zero.  Infinities and NaN
    have no defined image; the scorer never casts one. *)
Definition trunc (f : float) : Z :=
  match Prim2SF f with
  | S754_finite s m e => cond_Zopp s (Z.shiftl (Zpos m) e)
  | _ => 0%Z
  end.

(** [str.lower()], on ASCII letters. *)
Definition lower_ascii (c : ascii) : ascii :=
  let n := nat_of_ascii c in
  if ((65 <=? n) && (n <=? 90))%nat then ascii_of_nat (n + 32) else c.

Fixpoint lower (s : string) : string :=
  match s with
  | EmptyString => EmptyString
  | String c s' => String (lower_ascii c) (lower s')
  end.

(** ** Insertion-ordered dictionaries

    [wallet_stats] is iterated with [.items()], so its key order (first
    insertion) is kept: an association list without duplicate keys. *)

Fixpoint dict_get `{EqDecision K} {V} (d : list (K * V)) (k : K) : option V :=
  match d with
  | [] => None
  | (k', v) :: d' => if decide (k' = k) then Some v else dict_get d' k
  end.

Fixpoint dict_set `{EqDecision K} {V} (d : list (K * V)) (k : K) (v : V)
    : list (K * V) :=
  match d with
  | [] => [(k, v)]
  | (k', v') :: d' =>
      if decide (k' = k) then (k, v) :: d' else (k', v') :: dict_set d' k v
  end.

(** ** Transaction records

    A record is a JSON object; [None] in a field is an absent key.  The
    amount and the price are JSON scalars handed to [float()]. *)

Inductive pyval :=
  | PyNone
  | PyBool (b : bool)
  | PyInt (z : Z)
  | PyFloat (f : float)
  | PyStr (s : string).

Record action_data := {
  amount : option pyval;
  assetPriceUSD : option pyval;
}.

Record tx := {
  userWallet : option string;
  action : option string;
  timestamp : option Z;
  actionData : option action_data;
}.

(** ** Feature table *)

(** One row of [features_list].  pandas stores each column as float64 once one
    entry is a float; the [int] defaults [0] of the source are written [0.0]. *)
Record row := {
  wallet : string;
  total_tx : float;
  total_usd_all_actions : float;
  repay_borrow_ratio_count : float;
  num_liquidations : float;
  liquidation_ratio : float;
  active_days : float;
  avg_time_between_tx_days : float;
}.

(** The DataFrame: the feature rows by wallet, and the two columns the scorer
    adds.  [pd.DataFrame()] is [empty_frame]. *)
Record frame := {
  rows : list row;
  cluster : option (list Z);
  credit_score : option (list Z);
}.

Definition empty_frame : frame :=
  {| rows := []; cluster := None; credit_score := None |}.

(** [df.empty] *)
Definition frame_empty (df : frame) : bool :=
  match rows df with [] => true | _ => false end.

(** [df.loc[w]] *)
Definition frame_loc (df : frame) (w : string) : option row :=
  head (filter (λ r, wallet r = w) (rows df)).

(** ** The accumulators of [engineer_features] *)

(** The inner [defaultdict(float)] of one wallet.  Its float entries live
    under the keys ['total_tx'], ['total_usd_all_actions'], [f'num_{action}']
    and [f'total_usd_{action}']; the entry ['actions_set'], which none of the
    formatted keys can spell, is kept as a field of its own. *)
Record wstats := {
  nums : gmap string float;
  actions_set : gset string;
}.

Definition empty_wstats : wstats := {| nums := ∅; actions_set := ∅ |}.

Record state := {
  wallet_stats : list (string * wstats);
  wallet_timestamps : gmap string (list Z);
}.

Definition init_state : state :=
  {| wallet_stats := []; wallet_timestamps := ∅ |}.

(** [d[k] += v] on a [defaultdict(float)] *)
Definition bump (d : gmap string float) (k : string) (v : float)
    : gmap string float :=
  <[k := (default 0 (d !! k) + v)%float]> d.

(** Lines 102-110: the statistics of one valid record. *)
Definition accumulate (st : state) (w a : string) (ts : Z) (usd_value : float)
    : state :=
  let s := default empty_wstats (dict_get (wallet_stats st) w) in
  let n := bump (nums s) "total_tx" 1 in
  let n := bump n "total_usd_all_actions" usd_value in
  let n := bump n ("num_" +:+ a) 1 in
  let n := bump n ("total_usd_" +:+ a) usd_value in
  {| wallet_stats :=
       dict_set (wallet_stats st) w
         {| nums := n; actions_set := {[a]} ∪ actions_set s |};
     wallet_timestamps :=
       <[w := default [] (wallet_timestamps st !! w) ++ [ts]]>
         (wallet_timestamps st) |}.

(** Lines 86-91: the three essential fields, [None] when [all([...])] is
    false.  The test is Python truthiness: [None], [''] and [0] all fail. *)
Definition essentials (t : tx) : option (string * string * Z) :=
  let a := lower (default EmptyString (action t)) in
  match userWallet t, timestamp t with
  | Some w, Some ts =>
      if bool_decide (w ≠ EmptyString ∧ a ≠ EmptyString ∧ ts ≠ 0%Z)
      then Some (w, a, ts) else None
  | _, _ => None
  end.

Section FeatureEngineer.

(** [float(s)] on a string: [None] is [ValueError]. *)
Variable float_of_str : string → option float.

(** [float(x)] *)
Definition py_float (x : pyval) : result float :=
  match x with
  | PyNone => Raise TypeError
  | PyBool b => Ok (if b then 1 else 0)%float
  | PyInt z => float_of_int z
  | PyFloat f => Ok f
  | PyStr s =>
      match float_of_str s with
      | Some f => Ok f
      | None => Raise ValueError
      end
  end.

(** Lines 95-97, the body of the [try]. *)
Definition usd_value (t : tx) : result float :=
  match actionData t with
  | None => Raise KeyError
  | Some ad =>
      match amount ad with
      | None => Raise KeyError
      | Some x =>
          f ← py_float x;
          let amount := (f / 1e6)%float in
          price ← py_float (default (PyFloat 1) (assetPriceUSD ad));
          Ok (amount * price)%float
      end
  end.

(** What the loop does with one record: [None] when it is skipped (either
    [continue]), the accumulated entry otherwise.  An exception that the
    [except] clause does not name leaves the function. *)
Definition entry : Type := string * string * Z * float.

Definition parse_tx (t : tx) : result (option entry) :=
  match essentials t with
  | None => Ok None
  | Some (w, a, ts) =>
      match usd_value t with
      | Ok v => Ok (Some (w, a, ts, v))
      | Raise ValueError | Raise KeyError | Raise TypeError => Ok None
      | Raise e => Raise e
      end
  end.

(** One iteration of the loop of lines 85-110. *)
Definition step (st : state) (t : tx) : result state :=
  o ← parse_tx t;
  match o with
  | None => Ok st
  | Some (w, a, ts, v) => Ok (accumulate st w a ts v)
  end.

Fixpoint scan (raw_data : list tx) (st : state) : result state :=
  match raw_data with
  | [] => Ok st
  | t :: raw_data' => st' ← step st t; scan raw_data' st'
  end.

(** Lines 118-139: the feature row of one wallet. *)
Definition feature_row (tss : gmap string (list Z)) (ws : string * wstats)
    : result row :=
  let (w, stats) := ws in
  let total_tx := default 0%float (nums stats !! "total_tx") in
  let num_borrows := default 0%float (nums stats !! "num_borrow") in
  let repay_borrow_ratio_count :=
    if (0 <? num_borrows)%float
    then (default 0 (nums stats !! "num_repay") / num_borrows)%float
    else 1%float in
  let liquidation_ratio :=
    if (0 <? total_tx)%float
    then (default 0 (nums stats !! "num_liquidationcall") / total_tx)%float
    else 0%float in
  let timestamps := merge_sort Z.le (default [0%Z] (tss !! w)) in
  active_days ←
    match timestamps with
    | t0 :: _ :: _ => int_truediv (List.last timestamps t0 - t0) 86400
    | _ => Ok 0%float
    end;
  let avg_time_between_tx_days :=
    if (1 <? total_tx)%float then (active_days / total_tx)%float
    else 0%float in
  Ok {| wallet := w;
        total_tx := total_tx;
        total_usd_all_actions :=
          default 0%float (nums stats !! "total_usd_all_actions");
        repay_borrow_ratio_count := repay_borrow_ratio_count;
        num_liquidations :=
          default 0%float (nums stats !! "num_liquidationcall");
        liquidation_ratio := liquidation_ratio;
        active_days := active_days;
        avg_time_between_tx_days := avg_time_between_tx_days |}.

(** [pd.DataFrame(features_list).set_index('wallet')]: a frame built from
    no row has no column, and [set_index] raises [KeyError]. *)
Definition to_frame (features_list : list row) : result frame :=
  match features_list with
  | [] => Raise KeyError
  | _ => Ok {| rows := features_list; cluster := None; credit_score := None |}
  end.

Definition engineer_features (raw_data : list tx) : result frame :=
  match raw_data with
  | [] => Ok empty_frame
  | _ =>
      st ← scan raw_data init_state;
      features_list ← mapR (feature_row (wallet_timestamps st)) (wallet_stats st);
      to_frame features_list
  end.

End FeatureEngineer.

(** ** The cluster scorer *)

Definition MODEL_FEATURE_COLS (r : row) : list float :=
  [ repay_borrow_ratio_count r; liquidation_ratio r; active_days r;
    total_usd_all_actions r; avg_time_between_tx_days r ].

Definition N_CLUSTERS : Z := 5.

(** [X.replace([np.inf, -np.inf], 0)] and [X.fillna(0)], entry by entry. *)
Definition replace_inf (x : float) : float := if is_infinity x then 0%float else x.
Definition fillna (x : float) : float := if is_nan x then 0%float else x.

(** Lines 162-164: the model input, a cleaned copy of the five columns. *)
Definition model_input (rs : list row) : list (list float) :=
  map (λ r, map (λ x, fillna (replace_inf x)) (MODEL_FEATURE_COLS r)) rs.

(** The rows of one cluster: [df.groupby('cluster')] at key [c]. *)
Definition group (rs : list row) (labels : list Z) (c : Z) : list row :=
  (filter (λ rl, rl.2 = c) (zip rs labels)).*1.

(** The group keys, ascending as [groupby] lists them. *)
Definition group_keys (labels : list Z) : list Z :=
  merge_sort Z.le (remove_dups labels).

(** [rank(method='dense')] on floats: equal values (IEEE [==]) share a rank,
    the ranks have no gaps and start at 1. *)
Fixpoint distinct (l : list float) : list float :=
  match l with
  | [] => []
  | x :: l' => if existsb (λ y, y =? x)%float l' then distinct l' else x :: distinct l'
  end.

Definition dense_rank (vals : list float) (v : float) : Z :=
  Z.of_nat (length (distinct (filter (λ y, (y <? v)%float = true) vals))) + 1.

(** Line 179: the ranks, less one.  A NaN keeps a NaN rank, which
    [astype(int)] refuses. *)
Definition score_mapping_of (metric : list (Z * float)) : result (list (Z * Z)) :=
  if existsb is_nan metric.*2 then Raise ValueError
  else Ok (map (λ ch, (ch.1, dense_rank metric.*2 ch.2 - 1)%Z) metric).

Section ClusterScorer.

(** [MinMaxScaler().fit_transform], [KMeans(n_clusters, random_state=42,
    n_init=10).fit_predict] and the pandas mean of a column of one group. *)
Variable minmax_fit_transform : list (list float) → list (list float).
Variable kmeans_fit_predict : Z → list (list float) → result (list Z).
Variable series_mean : list float → float.

(** Lines 175-176, at one cluster. *)
Definition health (rs : list row) (labels : list Z) (c : Z) : float :=
  (series_mean (repay_borrow_ratio_count <$> group rs labels c)
   - series_mean (liquidation_ratio <$> group rs labels c) * 2)%float.

Definition cluster_health_metric (rs : list row) (labels : list Z)
    : list (Z * float) :=
  map (λ c, (c, health rs labels c)) (group_keys labels).

(** Line 182 at one label: [map(score_mapping)], the scaling and the cast. *)
Definition score_of (score_mapping : list (Z * Z)) (scale : float) (c : Z)
    : result Z :=
  match dict_get score_mapping c with
  | Some r => Ok (trunc (float_of_int64 r * scale))
  | None => Raise ValueError
  end.

Definition generate_credit_scores (df : frame) : result frame :=
  if frame_empty df then Ok df
  else
    let X := model_input (rows df) in
    let X_scaled := minmax_fit_transform X in
    labels ← kmeans_fit_predict N_CLUSTERS X_scaled;
    if bool_decide (length labels = length (rows df)) then
      let metric := cluster_health_metric (rows df) labels in
      score_mapping ← score_mapping_of metric;
      scale ← int_truediv 1000 (N_CLUSTERS - 1);
      scores ← mapR (score_of score_mapping scale) labels;
      Ok {| rows := rows df; cluster := Some labels; credit_score := Some scores |}
    else Raise ValueError.

End ClusterScorer.

(** ** The pipeline *)

(** What [load_transaction_data] finds at [file_path]: no file, a file that
    is not JSON, or the list of records. *)
Inductive input_file :=
  | FileNotFound
  | NotJSON
  | Records (raw_data : list tx).

(** Lines 44-65: both exceptions are logged and answered with [[]]. *)
Definition load_transaction_data (f : input_file) : list tx :=
  match f with
  | Records raw_data => raw_data
  | FileNotFound | NotJSON => []
  end.

(** One line of the CSV: the index and [output_cols]. *)
Record report_row := {
  report_wallet : string;
  report_total_tx : float;
  report_total_usd_all_actions : float;
  report_repay_borrow_ratio_count : float;
  report_num_liquidations : float;
  report_active_days : float;
  report_credit_score : Z;
}.

Definition report (r : row) (score : Z) : report_row :=
  {| report_wallet := wallet r;
     report_total_tx := total_tx r;
     report_total_usd_all_actions := total_usd_all_actions r;
     report_repay_borrow_ratio_count := repay_borrow_ratio_count r;
     report_num_liquidations := num_liquidations r;
     report_active_days := active_days r;
     report_credit_score := score |}.

(** [df_scored[output_cols]]: [KeyError] without a [credit_score] column. *)
Definition select_output_cols (df : frame) : result (list report_row) :=
  match credit_score df with
  | Some scores => Ok (zip_with report (rows df) scores)
  | None => Raise KeyError
  end.

(** How [main] ends when it returns: one of the two early [return]s, the
    table handed to [to_csv], or the [except] branch of the save. *)
Inductive outcome :=
  | Exited
  | Saved (table : list report_row)
  | SaveFailed.

Section Main.
Variable float_of_str : string → option float.
Variable minmax_fit_transform : list (list float) → list (list float).
Variable kmeans_fit_predict : Z → list (list float) → result (list Z).
Variable series_mean : list float → float.

(** Lines 187-231.  The exceptions of the two core steps are not caught;
    those of the save are. *)
Definition main (f : input_file) : result outcome :=
  let raw_data := load_transaction_data f in
  match raw_data with
  | [] => Ok Exited
  | _ =>
      df_features ← engineer_features float_of_str raw_data;
      if frame_empty df_features then Ok Exited
      else
        df_scored ← generate_credit_scores minmax_fit_transform
                      kmeans_fit_predict series_mean df_features;
        match select_output_cols df_scored with
        | Ok table => Ok (Saved table)
        | Raise _ => Ok SaveFailed
        end
  end.
End Main.

(** ** Stand-ins for the external pieces, for the examples *)

(** A [float(str)] for strings of decimal digits, the form amounts take in
    the protocol's exports; every other string is rejected. *)
Fixpoint digits_value (s : string) (acc : Z) : option Z :=
  match s with
  | EmptyString => Some acc
  | String c s' =>
      let n := Z.of_nat (nat_of_ascii c) in
      if bool_decide (48 ≤ n ≤ 57)%Z then digits_value s' (10 * acc + (n - 48))
      else None
  end.

Definition float_of_digits (s : string) : option float :=
  match s with
  | EmptyString => None
  | _ => float_of_int64 <$> digits_value s 0
  end.

(** A clustering that refuses fewer than [k] samples, as k-means does, and
    otherwise labels row [i] with [i mod k]. *)
Definition modulo_clusters (k : Z) (X : list (list float)) : result (list Z) :=
  if bool_decide (Z.of_nat (length X) < k)%Z then Raise ValueError
  else Ok (imap (λ i _, Z.of_nat i mod k)%Z X).

(** Sum over count. *)
Definition plain_mean (l : list float) : float :=
  (fold_left add l 0 / float_of_int64 (Z.of_nat (length l)))%float.

Definition mk_tx (w a : string) (ts : Z) (amt : pyval) : tx :=
  {| userWallet := Some w; action := Some a; timestamp := Some ts;
     actionData := Some {| amount := Some amt; assetPriceUSD := None |} |}.

(** The scenario of the specification: W1 deposits 100 USD at t=0, borrows
    50 at t=1000 and repays 50 at t=2000 (amounts in 10^-6 units), and the
    same one second later. *)
Definition scenario : list tx :=
  [ mk_tx "W1" "deposit" 0 (PyStr "100000000");
    mk_tx "W1" "borrow" 1000 (PyStr "50000000");
    mk_tx "W1" "repay" 2000 (PyStr "50000000") ].

Definition scenario_shifted : list tx :=
  [ mk_tx "W1" "deposit" 1 (PyStr "100000000");
    mk_tx "W1" "borrow" 1001 (PyStr "50000000");
    mk_tx "W1" "repay" 2001 (PyStr "50000000") ].

(** A record without the [timestamp] key. *)
Definition no_timestamp : tx :=
  {| userWallet := Some "W1"; action := Some "deposit"; timestamp := None;
     actionData := Some {| amount := Some (PyStr "100000000");
                           assetPriceUSD := None |} |}.



(** A record whose amount is negative. *)
Definition negative_amount : list tx :=
  [ mk_tx "W" "deposit" 10 (PyInt (-5000000)) ].

(** Five wallets with one deposit each: five clusters of equal health. *)
Definition five_depositors : list tx :=
  [ mk_tx "A" "deposit" 10 (PyInt 1000000);
    mk_tx "B" "deposit" 20 (PyInt 2000000);
    mk_tx "C" "deposit" 30 (PyInt 3000000);
    mk_tx "D" "deposit" 40 (PyInt 4000000);
    mk_tx "E" "deposit" 50 (PyInt 5000000) ].

(** Five wallets of health 1, 0, 0.5, -1 and 2. *)
Definition ranked_wallets : list tx :=
  [ mk_tx "A" "deposit" 10 (PyInt 1000000);
    mk_tx "B" "borrow" 20 (PyInt 2000000);
    mk_tx "C" "borrow" 30 (PyInt 3000000);
    mk_tx "C" "borrow" 31 (PyInt 3000000);
    mk_tx "C" "repay" 32 (PyInt 3000000);
    mk_tx "D" "liquidationcall" 40 (PyInt 4000000);
    mk_tx "E" "borrow" 50 (PyInt 5000000);
    mk_tx "E" "repay" 51 (PyInt 5000000);
    mk_tx "E" "repay" 52 (PyInt 5000000) ].

(** Six wallets over five clusters, with ties. *)
Definition mixed_wallets : list tx :=
  [ mk_tx "A" "borrow" 10 (PyInt 1000000);
    mk_tx "A" "repay" 86410 (PyInt 1000000);
    mk_tx "B" "borrow" 20 (PyInt 2000000);
    mk_tx "B" "liquidationcall" 30 (PyInt 2000000);
    mk_tx "C" "deposit" 30 (PyInt 3000000);
    mk_tx "D" "borrow" 40 (PyInt 4000000);
    mk_tx "D" "borrow" 41 (PyInt 4000000);
    mk_tx "D" "repay" 42 (PyInt 4000000);
    mk_tx "E" "LiquidationCall" 50 (PyInt 5000000);
    mk_tx "F" "deposit" 60 (PyStr "7000000") ].

(** The value of a run that ended, for the examples. *)
Definition get_ok {A} (d : A) (res : result A) : A :=
  match res with
  | Ok a => a
  | Raise _ => d
  end.

Definition features_of (raw : list tx) : frame :=
  get_ok empty_frame (engineer_features float_of_digits raw).

Definition scored (raw : list tx) : frame :=
  get_ok empty_frame
    (generate_credit_scores (λ X, X) modulo_clusters plain_mean (features_of raw)).

(** ** Vocabulary of the properties *)

Definition entry_wallet (e : entry) : string := e.1.1.1.
Definition entry_action (e : entry) : string := e.1.1.2.
Definition entry_timestamp (e : entry) : Z := e.1.2.
Definition entry_usd (e : entry) : float := e.2.

(** The valid records of an input, in arrival order: those the loop
    accumulates.  It raises when the loop does. *)
Definition entries (float_of_str : string → option float) (raw_data : list tx)
    : result (list entry) :=
  match mapR (parse_tx float_of_str) raw_data with
  | Ok os => Ok (omap id os)
  | Raise e => Raise e
  end.

Definition acc_entry (st : state) (e : entry) : state :=
  accumulate st (entry_wallet e) (entry_action e) (entry_timestamp e) (entry_usd e).

(** The valid records of wallet [w], and those among them of action [a]. *)
Definition of_wallet (w : string) (es : list entry) : list entry :=
  filter (λ e, entry_wallet e = w) es.

Definition tx_count (w : string) (es : list entry) : nat :=
  length (of_wallet w es).

Definition action_count (w a : string) (es : list entry) : nat :=
  length (filter (λ e, entry_action e = a) (of_wallet w es)).

(** A counter of the accumulator after [n] increments: [0.0 + 1 + ... + 1]. *)
Definition count_float (n : nat) : float :=
  Nat.iter n (λ x, x + 1)%float 0%float.

(** One [+= 1] on an entry of a [defaultdict(float)], seen from its key. *)
Definition incr (o : option float) : option float :=
  Some (default 0 o + 1)%float.

(** The accumulated numbers and timestamps of one wallet. *)
Definition wnums (st : state) (w : string) : gmap string float :=
  nums (default empty_wstats (dict_get (wallet_stats st) w)).

Definition wtimes (st : state) (w : string) : list Z :=
  default [] (wallet_timestamps st !! w).

(** The four [+=] of one record on the numbers of its wallet. *)
Definition bump_all (n : gmap string float) (e : entry) : gmap string float :=
  bump (bump (bump (bump n "total_tx" 1) "total_usd_all_actions" (entry_usd e))
          ("num_" +:+ entry_action e) 1)
    ("total_usd_" +:+ entry_action e) (entry_usd e).

(** What one record adds to the USD total of its wallet.  The key
    [f'total_usd_{action}'] of a record of action ['all_actions'] is the key
    of the total itself, which then receives the value twice. *)
Definition usd_step (acc : float) (e : entry) : float :=
  if decide (entry_action e = "all_actions")
  then (acc + entry_usd e + entry_usd e)%float
  else (acc + entry_usd e)%float.

(** The feature row as a function of the wallet's counts, its timestamps and
    its accumulated USD total. *)
Definition row_of_counts (w : string) (n nb nr nl : nat) (ts : list Z)
    (usd : float) : result row :=
  let timestamps := merge_sort Z.le ts in
  active_days ←
    match timestamps with
    | t0 :: _ :: _ => int_truediv (List.last timestamps t0 - t0) 86400
    | _ => Ok 0%float
    end;
  Ok {| wallet := w;
        total_tx := count_float n;
        total_usd_all_actions := usd;
        repay_borrow_ratio_count :=
          if (0 <? count_float nb)%float
          then (count_float nr / count_float nb)%float else 1%float;
        num_liquidations := count_float nl;
        liquidation_ratio :=
          if (0 <? count_float n)%float
          then (count_float nl / count_float n)%float else 0%float;
        active_days := active_days;
        avg_time_between_tx_days :=
          if (1 <? count_float n)%float
          then (active_days / count_float n)%float else 0%float |}.




(** Signs of IEEE values. *)
Definition sf_positive (s : spec_float) : Prop :=
  match s with
  | S754_finite false _ _ | S754_infinity false => True
  | _ => False
  end.

(** A value that is finite and not below zero. *)
Definition sf_finite_nonneg (s : spec_float) : Prop :=
  match s with
  | S754_zero _ | S754_finite false _ _ => True
  | _ => False
  end.

(** The binary64 number of 53 significant bits whose value is the integer
    [k]; every [k] from 1 to 2^53 has one. *)
Definition sf_integer (k : Z) (s : spec_float) : Prop :=
  ∃ m e, s = S754_finite false m e ∧ (2 ^ 52 ≤ Z.pos m < 2 ^ 53)%Z ∧
         (-52 ≤ e ≤ 1)%Z ∧ (Z.pos m * 2 ^ (e + 52) = k * 2 ^ 52)%Z.

(** The wallets of a list, each once, in the order of their first
    occurrence. *)
Fixpoint first_seen (ws : list string) : list string :=
  match ws with
  | [] => []
  | w :: ws' => w :: filter (λ x, x ≠ w) (first_seen ws')
  end.

(** A record with its action in lower case. *)
Definition lower_action (t : tx) : tx :=
  {| userWallet := userWallet t; action := lower <$> action t;
     timestamp := timestamp t; actionData := actionData t |}.

(** An order-preserving key of the IEEE values other than NaN: the sign
    class first, then exponent and mantissa.  Valid floats compare as their
    keys do. *)
Definition sf_key (s : spec_float) : Z * Z * Z :=
  match s with
  | S754_infinity true => (0, 0, 0)
  | S754_finite true m e => (1, - e, Z.neg m)
  | S754_zero _ => (2, 0, 0)
  | S754_finite false m e => (3, e, Z.pos m)
  | S754_infinity false => (4, 0, 0)
  | S754_nan => (5, 0, 0)
  end%Z.

Definition key_lt (a b : Z * Z * Z) : Prop :=
  (a.1.1 < b.1.1 ∨
   (a.1.1 = b.1.1 ∧ (a.1.2 < b.1.2 ∨ (a.1.2 = b.1.2 ∧ a.2 < b.2))))%Z.

Definition float_key (x : float) : Z * Z * Z := sf_key (Prim2SF x).

(** The valid records of an input, for the examples. *)
Definition entries_of (raw : list tx) : list entry :=
  get_ok [] (entries float_of_digits raw).

(** A row of a table by position, for the examples. *)
Definition row_at (df : frame) (i : nat) : row :=
  default {| wallet := EmptyString; total_tx := 0; total_usd_all_actions := 0;
             repay_borrow_ratio_count := 0; num_liquidations := 0;
             liquidation_ratio := 0; active_days := 0;
             avg_time_between_tx_days := 0 |} (rows df !! i).

(** One record whose action spells the key suffix [all_actions]. *)
Definition all_actions_record : list tx :=
  [ mk_tx "W" "ALL_ACTIONS" 10 (PyInt 1000000) ].

(** A record whose amount does not fit a float. *)
Definition huge_amount : tx := mk_tx "W" "deposit" 10 (PyInt (2 ^ 1024)).

Definition run_main (f : input_file) : result outcome :=
  main float_of_digits (λ X, X) modulo_clusters plain_mean f.

(** ** Three properties as the specification words them *)


(** Every numeric feature of every row is finite and not below zero. *)
Definition row_features (r : row) : list float :=
  [ total_tx r; total_usd_all_actions r; repay_borrow_ratio_count r;
    num_liquidations r; liquidation_ratio r; active_days r;
    avg_time_between_tx_days r ].

Definition finite_nonneg (x : float) : bool :=
  is_finite x && negb (x <? 0)%float.

Definition features_finite_nonneg (df : frame) : Prop :=
  ∀ r, r ∈ rows df → Forall (λ x, finite_nonneg x = true) (row_features r).

(** The cluster of lowest health scores 0 and the cluster of highest health
    scores 1000, [h] being the health by cluster. *)
Definition extremes_0_1000 (h : Z → float) (labels scores : list Z) : Prop :=
  ∀ i c, labels !! i = Some c →
    ((∀ c', c' ∈ labels → (h c' <? h c)%float = false) → scores !! i = Some 0%Z) ∧
    ((∀ c', c' ∈ labels → (h c <? h c')%float = false) → scores !! i = Some 1000%Z).

(** ** Facts on binary64 *)

Lemma iter_pos_nat {A} (f : A -> A) (p : positive) (x : A) :
  SpecFloat.iter_pos f p x = Nat.iter (Pos.to_nat p) f x.
Proof.
  revert x. induction p as [p IH|p IH|]; intros x; cbn [SpecFloat.iter_pos].
  - rewrite !IH, Pos2Nat.inj_xI.
    replace (S (2 * Pos.to_nat p)) with (Pos.to_nat p + S (Pos.to_nat p))%nat by lia.
    rewrite Nat.iter_add, Nat.iter_succ_r. done.
  - rewrite !IH, Pos2Nat.inj_xO.
    replace (2 * Pos.to_nat p)%nat with (Pos.to_nat p + Pos.to_nat p)%nat by lia.
    rewrite Nat.iter_add. done.
  - done.
Qed.

Lemma shr_1_pos p r s :
  (1 < Pos.to_nat (digits2_pos p))%nat ->
  exists p' r' s', shr_1 {| shr_m := Zpos p; shr_r := r; shr_s := s |}
                   = {| shr_m := Zpos p'; shr_r := r'; shr_s := s' |}
    /\ Pos.to_nat (digits2_pos p) = S (Pos.to_nat (digits2_pos p')).
Proof.
  destruct p as [p|p|]; simpl; intros Hd.
  - eexists _, _, _. split; [done|]. lia.
  - eexists _, _, _. split; [done|]. lia.
  - lia.
Qed.

Lemma shr_iter_pos k : forall p r s,
  (k < Pos.to_nat (digits2_pos p))%nat ->
  exists p' r' s', Nat.iter k shr_1 {| shr_m := Zpos p; shr_r := r; shr_s := s |}
                   = {| shr_m := Zpos p'; shr_r := r'; shr_s := s' |}.
Proof.
  induction k as [|k IH]; intros p r s Hk.
  - simpl. eauto.
  - rewrite Nat.iter_succ_r.
    destruct (shr_1_pos p r s) as (p' & r' & s' & -> & Hd); [lia|].
    apply IH. lia.
Qed.

Lemma shr_fexp_pos p e l :
  (SpecFloat.emin prec emax <= e)%Z ->
  exists p' r s e', shr_fexp prec emax (Zpos p) e l
                    = ({| shr_m := Zpos p'; shr_r := r; shr_s := s |}, e')
    /\ (SpecFloat.emin prec emax <= e')%Z.
Proof.
  intros He. unfold shr_fexp, shr.
  assert (exists r s, shr_record_of_loc (Z.pos p) l = {| shr_m := Zpos p; shr_r := r; shr_s := s |})
    as (r & s & ->) by (destruct l as [|[]]; simpl; eauto).
  destruct (fexp prec emax (Zdigits2 (Z.pos p) + e) - e)%Z as [|n|n] eqn:Hn.
  - eauto 10.
  - rewrite iter_pos_nat.
    destruct (shr_iter_pos (Pos.to_nat n) p r s) as (p' & r' & s' & ->).
    + unfold fexp, SpecFloat.emin, emax, prec in *.
      change (Zdigits2 (Z.pos p)) with (Z.pos (digits2_pos p)) in Hn. lia.
    + eexists _, _, _, _. split; [done|]. lia.
  - eauto 10.
Qed.

Lemma binary_round_aux_pos p e l :
  (SpecFloat.emin prec emax <= e)%Z ->
  sf_positive (binary_round_aux prec emax false (Zpos p) e l).
Proof.
  intros He. unfold binary_round_aux.
  destruct (shr_fexp_pos p e l He) as (p' & r & s & e' & -> & He').
  set (m' := round_nearest_even _ _).
  assert (exists q, m' = Zpos q) as [q ->].
  { unfold m', round_nearest_even. destruct r, s; simpl; eauto.
    destruct p'; simpl; eauto. }
  destruct (shr_fexp_pos q e' loc_Exact He') as (p'' & r' & s' & e'' & -> & _).
  simpl. destruct (Z.leb _ _); done.
Qed.

Lemma binary_round_pos p e :
  (SpecFloat.emin prec emax <= e)%Z ->
  sf_positive (binary_round prec emax false p e).
Proof.
  intros He. unfold binary_round, shl_align.
  destruct (fexp prec emax (Z.pos (digits2_pos p) + e) - e)%Z eqn:Hd;
    apply binary_round_aux_pos; try done.
  unfold fexp, SpecFloat.emin, emax, prec in *. lia.
Qed.

Lemma valid_emin s m e :
  valid_binary (S754_finite s m e) = true -> (SpecFloat.emin prec emax <= e)%Z.
Proof.
  simpl. unfold bounded, canonical_mantissa, fexp, SpecFloat.emin, emax, prec.
  intros [H1 _]%andb_prop. apply Z.eqb_eq in H1. lia.
Qed.

Lemma SFadd_pos x y :
  valid_binary x = true -> valid_binary y = true ->
  sf_positive x -> sf_positive y -> sf_positive (SF64add x y).
Proof.
  destruct x as [ | [] | | [] mx ex], y as [ | [] | | [] my ey]; try done.
  intros Hx%valid_emin Hy%valid_emin _ _.
  unfold SF64add, SFadd. simpl cond_Zopp.
  change (Zpos ?a + Zpos ?b)%Z with (Zpos (a + b)). unfold binary_normalize.
  apply binary_round_pos. lia.
Qed.

Lemma add_pos (x y : float) :
  (0 <? x)%float = true -> (0 <? y)%float = true -> (0 <? x + y)%float = true.
Proof.
  rewrite !FloatAxioms.ltb_spec, add_spec.
  pose proof (Prim2SF_valid x) as Vx. pose proof (Prim2SF_valid y) as Vy.
  intros Hx Hy.
  assert (sf_positive (Prim2SF x)) as Px.
  { destruct (Prim2SF x) as [ | [] | | [] ? ?]; try done. }
  assert (sf_positive (Prim2SF y)) as Py.
  { destruct (Prim2SF y) as [ | [] | | [] ? ?]; try done. }
  pose proof (SFadd_pos _ _ Vx Vy Px Py) as P.
  destruct (SF64add _ _) as [ | [] | | [] ? ?]; try done.
Qed.

Lemma SFcompare_antisym x y :
  SFcompare y x = CompOpp <$> SFcompare x y.
Proof.
  destruct x as [[]|[]| |[] mx ex], y as [[]|[]| |[] my ey]; try done; simpl;
    change (Pos.compare_cont Eq ?a ?b) with (Pos.compare a b);
    rewrite (Z.compare_antisym ex ey), (Pos.compare_antisym mx my);
    destruct (ex ?= ey)%Z; simpl; try done;
    destruct (mx ?= my)%positive; done.
Qed.

Lemma SFcompare_refl x : x <> S754_nan -> SFcompare x x = Some Eq.
Proof.
  destruct x as [[]|[]| |[] m e]; try done; intros _; simpl;
    rewrite Z.compare_refl; fold (Pos.compare m m); rewrite Pos.compare_refl; done.
Qed.

Lemma ltb_irrefl (x : float) : (x <? x)%float = false.
Proof.
  rewrite FloatAxioms.ltb_spec. unfold SFltb.
  destruct (Prim2SF x) as [[]|[]| |[] m e] eqn:E; try done;
    rewrite SFcompare_refl; done.
Qed.

Lemma is_nan_spec (x : float) : is_nan x = false -> Prim2SF x <> S754_nan.
Proof.
  unfold is_nan. rewrite FloatAxioms.eqb_spec. unfold SFeqb.
  intros H E. rewrite E in H. done.
Qed.

Lemma ltb_total (x y : float) :
  is_nan x = false -> is_nan y = false ->
  (x <? y)%float = false -> (x =? y)%float = false -> (y <? x)%float = true.
Proof.
  intros Hx%is_nan_spec Hy%is_nan_spec. rewrite !FloatAxioms.ltb_spec, FloatAxioms.eqb_spec.
  unfold SFltb, SFeqb. rewrite (SFcompare_antisym (Prim2SF x) (Prim2SF y)).
  destruct (SFcompare (Prim2SF x) (Prim2SF y)) as [[]|] eqn:E; try done.
  destruct (Prim2SF x) as [[]|[]| |[] ? ?], (Prim2SF y) as [[]|[]| |[] ? ?]; done.
Qed.

(** ** Facts on the dictionaries *)

Lemma dict_get_set_eq `{EqDecision K} {V} (d : list (K * V)) k v :
  dict_get (dict_set d k v) k = Some v.
Proof.
  induction d as [|[k' v'] d IH]; simpl.
  - by rewrite decide_True.
  - destruct (decide (k' = k)); simpl; [by rewrite decide_True|].
    by rewrite decide_False.
Qed.

Lemma dict_get_set_ne `{EqDecision K} {V} (d : list (K * V)) k k' v :
  k ≠ k' → dict_get (dict_set d k v) k' = dict_get d k'.
Proof.
  intros Hne. induction d as [|[k0 v0] d IH]; simpl.
  - by rewrite decide_False.
  - destruct (decide (k0 = k)) as [->|]; simpl; [by rewrite !decide_False|].
    by rewrite IH.
Qed.

Lemma dict_set_keys `{EqDecision K} {V} (d : list (K * V)) k v :
  (dict_set d k v).*1 = if decide (k ∈ d.*1) then d.*1 else d.*1 ++ [k].
Proof.
  induction d as [|[k0 v0] d IH]; cbn [dict_set fmap list_fmap].
  - case_decide as E; [by apply elem_of_nil in E|done].
  - destruct (decide (k0 = k)) as [->|Hne]; cbn [fmap list_fmap fst].
    + clear IH. case_decide as E; [reflexivity|]. exfalso. apply E, list_elem_of_here.
    + fold (fmap (M:=list) (@fst K V)). rewrite IH.
      repeat case_decide; try done; set_solver.
Qed.

Lemma dict_set_NoDup `{EqDecision K} {V} (d : list (K * V)) k v :
  NoDup d.*1 → NoDup (dict_set d k v).*1.
Proof.
  intros Hd. rewrite dict_set_keys. case_decide; [done|].
  apply NoDup_app. split_and!; [done| |apply NoDup_singleton].
  intros x Hx ->%list_elem_of_singleton. done.
Qed.

Lemma dict_get_Some_elem `{EqDecision K} {V} (d : list (K * V)) k v :
  dict_get d k = Some v → (k, v) ∈ d.
Proof.
  induction d as [|[k0 v0] d IH]; simpl; [done|].
  case_decide as E.
  - intros [= ->]. subst. apply list_elem_of_here.
  - intros ?. apply list_elem_of_further. auto.
Qed.

Lemma dict_get_elem `{EqDecision K} {V} (d : list (K * V)) k v :
  NoDup d.*1 → (k, v) ∈ d → dict_get d k = Some v.
Proof.
  induction d as [|[k0 v0] d IH]; simpl.
  - intros _ H. by apply elem_of_nil in H.
  - intros [Hk Hd]%NoDup_cons [[= -> ->]|Hin]%elem_of_cons.
    + by rewrite decide_True.
    + rewrite decide_False; [auto|]. intros ->. apply Hk.
      apply list_elem_of_fmap. by exists (k, v).
Qed.

Lemma dict_get_None `{EqDecision K} {V} (d : list (K * V)) k :
  dict_get d k = None ↔ k ∉ d.*1.
Proof.
  induction d as [|[k0 v0] d IH]; simpl.
  - split; [intros _; apply not_elem_of_nil|done].
  - rewrite not_elem_of_cons. case_decide; naive_solver.
Qed.

Lemma dict_get_map `{EqDecision K} {V} (f : K → V) (l : list K) k :
  k ∈ l → dict_get (map (λ c, (c, f c)) l) k = Some (f k).
Proof.
  induction l as [|k0 l IH]; simpl.
  - intros H. by apply elem_of_nil in H.
  - intros [->|Hin]%elem_of_cons; case_decide; subst; auto. done.
Qed.

(** ** Facts on [mapR] *)

Lemma mapR_Ok_elem {A B} (f : A → result B) l ys y :
  mapR f l = Ok ys → y ∈ ys → ∃ x, x ∈ l ∧ f x = Ok y.
Proof.
  revert ys. induction l as [|x l IH]; simpl; intros ys.
  - intros [= <-] H. by apply elem_of_nil in H.
  - destruct (f x) as [y0|] eqn:E; simpl; [|done].
    destruct (mapR f l) as [ys0|]; simpl; [|done].
    intros [= <-] [->|Hin]%elem_of_cons.
    + exists x. split; [apply list_elem_of_here|done].
    + destruct (IH ys0 eq_refl Hin) as (x' & ? & ?).
      exists x'. split; [by apply list_elem_of_further|done].
Qed.

Lemma mapR_Ok_length {A B} (f : A → result B) l ys :
  mapR f l = Ok ys → length ys = length l.
Proof.
  revert ys. induction l as [|x l IH]; simpl; intros ys.
  - by intros [= <-].
  - destruct (f x); simpl; [|done]. destruct (mapR f l); simpl; [|done].
    intros [= <-]. simpl. f_equal. auto.
Qed.

Lemma mapR_Ok_lookup {A B} (f : A → result B) l ys i x :
  mapR f l = Ok ys → l !! i = Some x → ∃ y, ys !! i = Some y ∧ f x = Ok y.
Proof.
  revert ys i. induction l as [|x0 l IH]; simpl; intros ys i; [done|].
  destruct (f x0) as [y0|] eqn:E; simpl; [|done].
  destruct (mapR f l) as [ys0|]; simpl; [|done].
  intros [= <-]. destruct i as [|i]; simpl.
  - intros [= <-]. eauto.
  - eauto.
Qed.

Lemma mapR_is_Ok {A B} (f : A → result B) l :
  (∀ x, x ∈ l → ∃ y, f x = Ok y) → ∃ ys, mapR f l = Ok ys.
Proof.
  induction l as [|x l IH]; simpl; intros H; [eauto|].
  destruct (H x) as [y ->]; [apply list_elem_of_here|]. simpl.
  destruct IH as [ys ->]; [|simpl; eauto].
  intros x' ?. apply H. by apply list_elem_of_further.
Qed.

Lemma mapR_Raise_elem {A B} (f : A → result B) l e :
  mapR f l = Raise e → ∃ x e', x ∈ l ∧ f x = Raise e'.
Proof.
  induction l as [|x l IH]; simpl; [done|].
  destruct (f x) as [y|e0] eqn:E; simpl.
  - destruct (mapR f l) as [ys|e1]; simpl; [done|].
    intros [= ->]. destruct (IH eq_refl) as (x' & e' & ? & ?).
    exists x', e'. split; [by apply list_elem_of_further|done].
  - intros _. exists x, e0. split; [apply list_elem_of_here|done].
Qed.

(** ** The loop, seen through the valid records *)

Lemma scan_entries fos raw st :
  scan fos raw st =
  match entries fos raw with
  | Ok es => Ok (fold_left acc_entry es st)
  | Raise e => Raise e
  end.
Proof.
  unfold entries. revert st. induction raw as [|t raw IH]; intros st; simpl; [done|].
  unfold step. destruct (parse_tx fos t) as [[[[[w a] ts] v]|]|e]; simpl; [| |done].
  - rewrite IH. destruct (mapR _ raw); done.
  - rewrite IH. destruct (mapR _ raw); done.
Qed.

Lemma entries_app fos l1 l2 :
  entries fos (l1 ++ l2) =
  match entries fos l1, entries fos l2 with
  | Ok a, Ok b => Ok (a ++ b)
  | Raise e, _ => Raise e
  | Ok _, Raise e => Raise e
  end.
Proof.
  unfold entries. induction l1 as [|t l1 IH]; simpl.
  - destruct (mapR _ l2); done.
  - destruct (parse_tx fos t) as [o|e]; simpl; [|done].
    destruct (mapR _ (l1 ++ l2)) as [os|e], (mapR _ l1) as [os1|e1],
      (mapR _ l2) as [os2|e2]; simpl in *; try done; try congruence.
    injection IH as IH. destruct o; simpl; repeat f_equal; exact IH.
Qed.

(** One record touches the numbers and the timestamps of its wallet only. *)
Lemma wnums_acc_entry st e w :
  wnums (acc_entry st e) w =
  if decide (entry_wallet e = w) then bump_all (wnums st w) e else wnums st w.
Proof.
  unfold wnums, acc_entry, accumulate; simpl. case_decide as E.
  - subst w. by rewrite dict_get_set_eq.
  - by rewrite dict_get_set_ne.
Qed.

Lemma wnums_fold es : ∀ st w,
  wnums (fold_left acc_entry es st) w = fold_left bump_all (of_wallet w es) (wnums st w).
Proof.
  induction es as [|e es IH]; intros st w; simpl; [done|].
  rewrite IH, wnums_acc_entry. unfold of_wallet. rewrite filter_cons.
  case_decide; done.
Qed.

Lemma timestamps_fold es : ∀ st w,
  wallet_timestamps (fold_left acc_entry es st) !! w =
  match of_wallet w es with
  | [] => wallet_timestamps st !! w
  | l => Some (wtimes st w ++ (entry_timestamp <$> l))
  end.
Proof.
  induction es as [|e es IH]; intros st w; simpl; [done|].
  rewrite IH. unfold of_wallet. rewrite filter_cons.
  unfold wtimes, acc_entry, accumulate; simpl. case_decide as E.
  - subst w. rewrite lookup_insert_eq. simpl.
    destruct (filter _ es); simpl; [done|]. by rewrite <- (assoc_L (++)).
  - by rewrite lookup_insert_ne.
Qed.

Lemma keys_fold es : ∀ st w,
  w ∈ (wallet_stats (fold_left acc_entry es st)).*1 ↔
  w ∈ (wallet_stats st).*1 ∨ of_wallet w es ≠ [].
Proof.
  induction es as [|e es IH]; intros st w; simpl; [naive_solver|].
  rewrite IH. unfold of_wallet. rewrite filter_cons.
  unfold acc_entry at 1, accumulate; simpl. rewrite dict_set_keys.
  case_decide as E1; case_decide as E2; subst; rewrite ?elem_of_app, ?list_elem_of_singleton;
    naive_solver.
Qed.

Lemma NoDup_fold es : ∀ st,
  NoDup (wallet_stats st).*1 → NoDup (wallet_stats (fold_left acc_entry es st)).*1.
Proof.
  induction es as [|e es IH]; intros st Hst; simpl; [done|].
  apply IH. unfold acc_entry, accumulate; simpl. by apply dict_set_NoDup.
Qed.

(** ** The counters *)

Lemma lookup_bump d k v k' :
  bump d k v !! k' = if decide (k = k') then Some (default 0 (d !! k) + v)%float else d !! k'.
Proof. unfold bump. by rewrite lookup_insert. Qed.

Lemma bump_all_total_tx n e :
  bump_all n e !! "total_tx" = incr (n !! "total_tx").
Proof.
  unfold bump_all. rewrite !lookup_bump. simpl.
  repeat (case_decide as E; [by inversion E|clear E]).
  done.
Qed.

Lemma bump_all_num n e b :
  bump_all n e !! ("num_" +:+ b) =
  if decide (entry_action e = b) then incr (n !! ("num_" +:+ b))
  else n !! ("num_" +:+ b).
Proof.
  unfold bump_all. rewrite !lookup_bump. simpl.
  destruct (decide (entry_action e = b)) as [->|Hne].
  - by rewrite decide_True.
  - rewrite decide_False; [done|]. intros [= ?]. done.
Qed.

Lemma fold_total_tx es : ∀ n,
  fold_left bump_all es n !! "total_tx" = Nat.iter (length es) incr (n !! "total_tx").
Proof.
  induction es as [|e es IH]; intros n; [done|].
  cbn [fold_left length]. by rewrite IH, bump_all_total_tx, Nat.iter_succ_r.
Qed.

Lemma fold_num b es : ∀ n,
  fold_left bump_all es n !! ("num_" +:+ b) =
  Nat.iter (length (filter (λ e, entry_action e = b) es)) incr (n !! ("num_" +:+ b)).
Proof.
  induction es as [|e es IH]; intros n; [done|].
  cbn [fold_left]. rewrite IH, bump_all_num, filter_cons.
  case_decide; [|done]. by rewrite length_cons, Nat.iter_succ_r.
Qed.

Lemma iter_incr_None n :
  default 0%float (Nat.iter n incr None) = count_float n.
Proof.
  destruct n as [|n]; [done|].
  enough (Nat.iter (S n) incr None = Some (count_float (S n))) as -> by done.
  induction n as [|n IH]; [done|].
  rewrite Nat.iter_succ, IH. done.
Qed.

(** ** The feature rows, from counts *)

Lemma feature_row_counts es w s :
  (w, s) ∈ wallet_stats (fold_left acc_entry es init_state) →
  feature_row (wallet_timestamps (fold_left acc_entry es init_state)) (w, s) =
  row_of_counts w (tx_count w es)
    (action_count w "borrow" es) (action_count w "repay" es)
    (action_count w "liquidationcall" es)
    (entry_timestamp <$> of_wallet w es)
    (default 0%float (nums s !! "total_usd_all_actions")).
Proof.
  intros Hin.
  assert (NoDup (wallet_stats (fold_left acc_entry es init_state)).*1) as Hnd
    by (apply NoDup_fold, NoDup_nil_2).
  pose proof (dict_get_elem _ _ _ Hnd Hin) as Hget.
  assert (nums s = fold_left bump_all (of_wallet w es) ∅) as Hn.
  { pose proof (wnums_fold es init_state w) as H. unfold wnums at 1 in H.
    rewrite Hget in H. exact H. }
  assert (of_wallet w es ≠ []) as Hne.
  { assert (w ∈ (wallet_stats (fold_left acc_entry es init_state)).*1) as Hk
      by (apply list_elem_of_fmap; by exists (w, s)).
    apply keys_fold in Hk as [Hk|Hk]; [|done]. by apply elem_of_nil in Hk. }
  unfold feature_row, row_of_counts.
  set (usd := default 0%float (nums s !! "total_usd_all_actions")).
  rewrite timestamps_fold.
  change "num_borrow" with ("num_" +:+ "borrow").
  change "num_repay" with ("num_" +:+ "repay").
  change "num_liquidationcall" with ("num_" +:+ "liquidationcall").
  rewrite Hn, fold_total_tx, !fold_num, !lookup_empty, !iter_incr_None.
  destruct (of_wallet w es) as [|e0 l0] eqn:El; [done|]. rewrite <- El.
  reflexivity.
Qed.

Lemma engineer_features_Ok fos raw df :
  engineer_features fos raw = Ok df → raw ≠ [] →
  ∃ es features_list,
    entries fos raw = Ok es ∧
    mapR (feature_row (wallet_timestamps (fold_left acc_entry es init_state)))
      (wallet_stats (fold_left acc_entry es init_state)) = Ok features_list ∧
    features_list ≠ [] ∧
    df = {| rows := features_list; cluster := None; credit_score := None |}.
Proof.
  unfold engineer_features. destruct raw as [|t raw]; [done|]. intros H _.
  rewrite scan_entries in H. destruct (entries fos (t :: raw)) as [es|e]; [|done].
  simpl in H. destruct (mapR _ _) as [fl|e] eqn:Hfl; [|done]. simpl in H.
  destruct fl as [|r0 fl]; [done|]. injection H as <-.
  exists es, (r0 :: fl). done.
Qed.

Lemma engineer_features_row fos raw df es r :
  engineer_features fos raw = Ok df → entries fos raw = Ok es → r ∈ rows df →
  of_wallet (wallet r) es ≠ [] ∧
  ∃ usd, row_of_counts (wallet r) (tx_count (wallet r) es)
    (action_count (wallet r) "borrow" es) (action_count (wallet r) "repay" es)
    (action_count (wallet r) "liquidationcall" es)
    (entry_timestamp <$> of_wallet (wallet r) es) usd = Ok r.
Proof.
  intros Hdf Hes Hr. destruct (decide (raw = [])) as [->|Hraw].
  { injection Hdf as <-. by apply elem_of_nil in Hr. }
  destruct (engineer_features_Ok _ _ _ Hdf Hraw) as (es' & fl & Hes' & Hfl & _ & ->).
  rewrite Hes in Hes'. injection Hes' as <-. simpl in Hr.
  destruct (mapR_Ok_elem _ _ _ _ Hfl Hr) as ([w s] & Hin & Hrow).
  rewrite feature_row_counts in Hrow by done.
  assert (wallet r = w) as ->.
  { unfold row_of_counts in Hrow. destruct (match merge_sort _ _ with [] => _ | _ => _ end);
      simpl in Hrow; [|done]. by injection Hrow as <-. }
  split; [|eauto].
  assert (w ∈ (wallet_stats (fold_left acc_entry es init_state)).*1) as Hk
    by (apply list_elem_of_fmap; by exists (w, s)).
  apply keys_fold in Hk as [Hk|Hk]; [|done]. by apply elem_of_nil in Hk.
Qed.

(** ** The counters as floats *)

Lemma count_float_S n : count_float (S n) = (count_float n + 1)%float.
Proof. done. Qed.

Lemma count_float_pos n : (0 < n)%nat → (0 <? count_float n)%float = true.
Proof.
  destruct n as [|n]; [lia|]. intros _. induction n as [|n IH]; [done|].
  rewrite count_float_S. by apply add_pos.
Qed.

Section ratio.
Variable fos : string → option float.

(** C4: for every wallet of the feature table, [repay_borrow_ratio_count] is
    exactly 1.0 when the wallet has no valid borrow record, and the float
    quotient of its repay counter by its borrow counter when it has one. *)
Theorem repay_borrow_ratio raw df es r :
  engineer_features fos raw = Ok df →
  entries fos raw = Ok es →
  r ∈ rows df →
  let nb := action_count (wallet r) "borrow" es in
  let nr := action_count (wallet r) "repay" es in
  (nb = 0%nat → repay_borrow_ratio_count r = 1%float) ∧
  ((0 < nb)%nat → repay_borrow_ratio_count r = (count_float nr / count_float nb)%float).
Proof.
  intros Hdf Hes Hr nb nr.
  destruct (engineer_features_row _ _ _ _ _ Hdf Hes Hr) as (_ & usd & Hrow).
  unfold row_of_counts in Hrow.
  destruct (match merge_sort _ _ with [] => _ | _ => _ end) as [ad|]; [|done].
  simpl in Hrow. injection Hrow as <-. simpl. fold nb nr. split.
  - intros ->. done.
  - intros Hnb. by rewrite count_float_pos.
Qed.
End ratio.

(** ** Reordering the input *)









Lemma wallet_listed es w :
  of_wallet w es ≠ [] → ∃ s, (w, s) ∈ wallet_stats (fold_left acc_entry es init_state).
Proof.
  intros H.
  assert (w ∈ (wallet_stats (fold_left acc_entry es init_state)).*1) as Hk
    by (apply keys_fold; by right).
  apply list_elem_of_fmap in Hk as ([w' s] & -> & ?). eauto.
Qed.

Lemma listed_wallet es w s :
  (w, s) ∈ wallet_stats (fold_left acc_entry es init_state) → of_wallet w es ≠ [].
Proof.
  intros Hin.
  assert (w ∈ (wallet_stats (fold_left acc_entry es init_state)).*1) as Hk
    by (apply list_elem_of_fmap; by exists (w, s)).
  apply keys_fold in Hk as [Hk|Hk]; [|done]. by apply elem_of_nil in Hk.
Qed.


Lemma feature_row_wallet tss w s r : feature_row tss (w, s) = Ok r → wallet r = w.
Proof.
  unfold feature_row.
  destruct (match merge_sort _ _ with [] => _ | _ => _ end); simpl; [|done].
  by intros [= <-].
Qed.

(** [df.loc[w]] on the table built from the accumulators. *)
Lemma frame_loc_rows tss (d : list (string * wstats)) fl w :
  mapR (feature_row tss) d = Ok fl →
  head (filter (λ r, wallet r = w) fl) =
  match dict_get d w with
  | Some s => match feature_row tss (w, s) with Ok r => Some r | Raise _ => None end
  | None => None
  end.
Proof.
  revert fl. induction d as [|[k s] d IH]; cbn [mapR dict_get]; intros fl.
  - by intros [= <-].
  - destruct (feature_row tss (k, s)) as [r|] eqn:Er; cbn [mbind result_bind]; [|done].
    destruct (mapR _ d) as [fl0|]; cbn [mbind result_bind]; [|done]. intros [= <-].
    pose proof (feature_row_wallet _ _ _ _ Er) as Hw.
    rewrite filter_cons, Hw. destruct (decide (k = w)) as [<-|E].
    + by rewrite Er.
    + by apply IH.
Qed.

Section reorder.
Variable fos : string → option float.


End reorder.

(** ** The scorer *)

Lemma elem_of_group_keys labels c : c ∈ group_keys labels ↔ c ∈ labels.
Proof. unfold group_keys. by rewrite merge_sort_Permutation, elem_of_remove_dups. Qed.

Lemma NoDup_group_keys labels : NoDup (group_keys labels).
Proof.
  unfold group_keys. rewrite merge_sort_Permutation. apply NoDup_remove_dups.
Qed.

Lemma group_keys_bound labels :
  Forall (λ c, 0 ≤ c < N_CLUSTERS)%Z labels → (length (group_keys labels) ≤ 5)%nat.
Proof.
  intros H.
  assert (group_keys labels ⊆+ [0; 1; 2; 3; 4]%Z) as S.
  { apply NoDup_submseteq; [apply NoDup_group_keys|].
    intros c Hc. apply (proj1 (elem_of_group_keys _ _)) in Hc.
    rewrite Forall_forall in H.
    apply H in Hc. unfold N_CLUSTERS in Hc.
    assert (c = 0 ∨ c = 1 ∨ c = 2 ∨ c = 3 ∨ c = 4)%Z as Hcases by lia.
    set_solver. }
  by apply submseteq_length in S.
Qed.

Lemma group_keys_full labels :
  Forall (λ c, 0 ≤ c < N_CLUSTERS)%Z labels →
  (∀ c, 0 ≤ c < N_CLUSTERS → c ∈ labels)%Z →
  length (group_keys labels) = 5%nat.
Proof.
  intros H Hall. apply Nat.le_antisymm; [by apply group_keys_bound|].
  assert ([0; 1; 2; 3; 4]%Z ⊆+ group_keys labels) as S.
  { apply NoDup_submseteq; [by compute_done|].
    intros c Hc. apply elem_of_group_keys, Hall. unfold N_CLUSTERS.
    set_unfold. lia. }
  by apply submseteq_length in S.
Qed.

Lemma distinct_length l : (length (distinct l) ≤ length l)%nat.
Proof. induction l as [|x l IH]; simpl; [done|]. destruct (existsb _ _); simpl; lia. Qed.

Lemma filter_length_lt {A} (P : A → Prop) `{∀ x, Decision (P x)} (l : list A) x :
  x ∈ l → ¬ P x → (length (filter P l) < length l)%nat.
Proof.
  induction l as [|y l IH]; [by intros ?%elem_of_nil|].
  rewrite filter_cons. intros [->|Hin]%elem_of_cons Hx.
  - rewrite decide_False by done. simpl. pose proof (length_filter P l). lia.
  - case_decide; simpl; [apply IH in Hin; [lia|done]|].
    pose proof (length_filter P l). lia.
Qed.

Lemma dense_rank_bounds vals v :
  v ∈ vals → (1 ≤ dense_rank vals v ≤ Z.of_nat (length vals))%Z.
Proof.
  intros Hin. unfold dense_rank.
  pose proof (distinct_length (filter (λ y, (y <? v)%float = true) vals)).
  assert (length (filter (λ y, (y <? v)%float = true) vals) < length vals)%nat as F.
  { apply filter_length_lt with (x := v); [done|]. by rewrite ltb_irrefl. }
  lia.
Qed.

Lemma dense_rank_lowest vals v :
  (∀ y, y ∈ vals → (y <? v)%float = false) → dense_rank vals v = 1%Z.
Proof.
  intros H. unfold dense_rank.
  replace (filter _ vals) with (@nil float); [done|].
  symmetry. induction vals as [|y vals IH]; [done|].
  rewrite filter_cons, decide_False.
  - apply IH. intros y' ?. apply H. by apply list_elem_of_further.
  - rewrite H; [done|apply list_elem_of_here].
Qed.

Lemma distinct_fmap_id {A} (f : A → float) ks :
  NoDup ks →
  (∀ a b, a ∈ ks → b ∈ ks → a ≠ b → (f a =? f b)%float = false) →
  distinct (f <$> ks) = f <$> ks.
Proof.
  induction ks as [|a ks IH]; [done|]. intros [Ha Hnd]%NoDup_cons Hd.
  cbn [fmap list_fmap distinct]. fold (fmap (M:=list) f).
  replace (existsb _ (f <$> ks)) with false.
  - f_equal. apply IH; [done|]. intros; apply Hd; by try apply list_elem_of_further.
  - symmetry. apply not_true_is_false. intros (y & Hy & E)%existsb_exists.
    apply list_elem_of_In, list_elem_of_fmap in Hy as (b & -> & Hb).
    rewrite Hd in E; [done|by apply list_elem_of_further|apply list_elem_of_here|].
    intros ->. done.
Qed.

Lemma filter_all {A} (P : A → Prop) `{∀ x, Decision (P x)} (l : list A) :
  (∀ x, x ∈ l → P x) → filter P l = l.
Proof.
  induction l as [|x l IH]; [done|]. intros Hl. rewrite filter_cons, decide_True.
  - f_equal. apply IH. intros; apply Hl. by apply list_elem_of_further.
  - apply Hl, list_elem_of_here.
Qed.

Lemma dense_rank_highest {A} (f : A → float) ks c :
  NoDup ks → c ∈ ks →
  (∀ a, a ∈ ks → is_nan (f a) = false) →
  (∀ a b, a ∈ ks → b ∈ ks → a ≠ b → (f a =? f b)%float = false) →
  (∀ a, a ∈ ks → (f c <? f a)%float = false) →
  dense_rank (f <$> ks) (f c) = Z.of_nat (length ks).
Proof.
  intros Hnd Hc Hnan Hd Hmax. unfold dense_rank.
  apply list_elem_of_split in Hc as (k1 & k2 & ->).
  apply NoDup_app in Hnd as (Hnd1 & Hc1 & [Hc2 Hnd2]%NoDup_cons).
  assert (∀ a, a ∈ k1 ++ k2 → (f a <? f c)%float = true) as Hlt.
  { intros a Ha. 
    assert (a ∈ k1 ++ c :: k2) as Ha' by set_solver.
    assert (c ∈ k1 ++ c :: k2) as Hc' by set_solver.
    assert (c ≠ a) as Hne.
    { intros <-. apply elem_of_app in Ha as [?|?]; [by eapply Hc1; [|apply list_elem_of_here]|done]. }
    apply ltb_total; auto. }
  rewrite fmap_app, fmap_cons, filter_app, filter_cons, decide_False
    by (by rewrite ltb_irrefl).
  rewrite <- filter_app, <- fmap_app.
  rewrite filter_all.
  - rewrite distinct_fmap_id.
    + rewrite length_fmap, !length_app. simpl. lia.
    + apply NoDup_app. split_and!; [done| |done].
      intros x Hx1 Hx2. eapply Hc1; [done|]. by apply list_elem_of_further.
    + intros a b Ha Hb. apply Hd; set_solver.
  - intros y (a & -> & Ha)%list_elem_of_fmap. by apply Hlt.
Qed.

Lemma scale_250 : int_truediv 1000 (N_CLUSTERS - 1) = Ok 250%float.
Proof. by vm_compute. Qed.

Lemma scaled_rank r :
  (0 ≤ r ≤ 4)%Z → trunc (float_of_int64 r * 250) = (250 * r)%Z.
Proof.
  intros H.
  assert (r = 0 ∨ r = 1 ∨ r = 2 ∨ r = 3 ∨ r = 4)%Z as [->|[->|[->|[->| ->]]]] by lia;
    by vm_compute.
Qed.

Section scorer_facts.
Variable minmax_fit_transform : list (list float) → list (list float).
Variable kmeans_fit_predict : Z → list (list float) → result (list Z).
Variable series_mean : list float → float.

Local Abbreviation health_of := (health series_mean).
Local Abbreviation metric_of := (cluster_health_metric series_mean).

Lemma metric_values rs labels :
  (metric_of rs labels).*2 = health_of rs labels <$> group_keys labels.
Proof.
  unfold cluster_health_metric. rewrite <- list_fmap_compose. done.
Qed.

Lemma generate_credit_scores_Ok df df' :
  generate_credit_scores minmax_fit_transform kmeans_fit_predict series_mean df = Ok df' →
  frame_empty df = false →
  ∃ labels sm scores,
    kmeans_fit_predict N_CLUSTERS (minmax_fit_transform (model_input (rows df))) = Ok labels ∧
    length labels = length (rows df) ∧
    score_mapping_of (metric_of (rows df) labels) = Ok sm ∧
    mapR (score_of sm 250) labels = Ok scores ∧
    df' = {| rows := rows df; cluster := Some labels; credit_score := Some scores |}.
Proof.
  unfold generate_credit_scores. intros H He. rewrite He in H.
  destruct (kmeans_fit_predict _ _) as [labels|]; [|done].
  cbn [mbind result_bind] in H.
  case_bool_decide as Hlen; [|done].
  destruct (score_mapping_of _) as [sm|] eqn:Hsm; [|done].
  cbn [mbind result_bind] in H. rewrite scale_250 in H.
  cbn [mbind result_bind] in H.
  destruct (mapR _ labels) as [scores|] eqn:Hs; [|done].
  cbn [mbind result_bind] in H.
  injection H as <-. exists labels, sm, scores. done.
Qed.

Lemma score_mapping_Ok rs labels sm :
  score_mapping_of (metric_of rs labels) = Ok sm →
  (∀ c, c ∈ labels → is_nan (health_of rs labels c) = false) ∧
  ∀ c, c ∈ labels →
    dict_get sm c =
    Some (dense_rank (metric_of rs labels).*2 (health_of rs labels c) - 1)%Z.
Proof.
  unfold score_mapping_of. destruct (existsb _ _) eqn:E; [done|]. intros [= <-]. split.
  - intros c Hc. apply not_true_iff_false. intros Hn.
    apply not_true_iff_false in E. apply E, existsb_exists.
    exists (health_of rs labels c). split; [|done].
    apply list_elem_of_In. rewrite metric_values. apply list_elem_of_fmap.
    exists c. split; [done|]. by apply elem_of_group_keys.
  - intros c Hc. generalize (metric_of rs labels).*2. intros vals.
    unfold cluster_health_metric. rewrite map_map.
    apply (dict_get_map (λ c, dense_rank vals (health_of rs labels c) - 1)%Z).
    by apply elem_of_group_keys.
Qed.

(** The score of the wallet at position [i], from its cluster. *)
Lemma score_at df df' i r :
  generate_credit_scores minmax_fit_transform kmeans_fit_predict series_mean df = Ok df' →
  rows df' !! i = Some r →
  ∃ labels scores c,
    cluster df' = Some labels ∧ credit_score df' = Some scores ∧
    kmeans_fit_predict N_CLUSTERS (minmax_fit_transform (model_input (rows df))) = Ok labels ∧
    labels !! i = Some c ∧
    (∀ c, c ∈ labels → is_nan (health_of (rows df) labels c) = false) ∧
    ∀ j c', labels !! j = Some c' →
      scores !! j =
      Some (trunc (float_of_int64
        (dense_rank (metric_of (rows df) labels).*2 (health_of (rows df) labels c') - 1)
        * 250)).
Proof.
  intros H Hi. destruct (frame_empty df) eqn:He.
  { unfold generate_credit_scores in H. rewrite He in H. injection H as <-.
    unfold frame_empty in He. destruct (rows df); done. }
  destruct (generate_credit_scores_Ok _ _ H He) as (labels & sm & scores & Hk & Hlen & Hsm & Hs & ->).
  simpl in Hi. destruct (score_mapping_Ok _ _ _ Hsm) as [Hnan Hget].
  destruct (lookup_lt_is_Some_2 labels i) as [c Hc].
  { rewrite Hlen. by eapply lookup_lt_Some. }
  exists labels, scores, c. split_and!; try done.
  intros j c' Hj.
  destruct (mapR_Ok_lookup _ _ _ _ _ Hs Hj) as (v & -> & Hv).
  unfold score_of in Hv. rewrite Hget in Hv by (by eapply list_elem_of_lookup_2).
  by injection Hv as <-.
Qed.

(** C9: two wallets that the scorer puts in the same cluster receive the same
    [credit_score]. *)
Theorem same_cluster_same_score df df' labels scores i j ra rb c :
  generate_credit_scores minmax_fit_transform kmeans_fit_predict series_mean df = Ok df' →
  cluster df' = Some labels → credit_score df' = Some scores →
  rows df' !! i = Some ra → rows df' !! j = Some rb →
  labels !! i = Some c → labels !! j = Some c →
  ∃ v, scores !! i = Some v ∧ scores !! j = Some v.
Proof.
  intros H Hl Hs Hi _ Hci Hcj.
  destruct (score_at _ _ _ _ H Hi) as (labels' & scores' & _ & Hl' & Hs' & _ & _ & _ & Hat).
  rewrite Hl in Hl'. injection Hl' as <-. rewrite Hs in Hs'. injection Hs' as <-.
  eexists. split; [by apply Hat|by apply Hat].
Qed.

(** With the labels in range, the score is 250 times the rank less one. *)
Lemma score_formula df df' labels scores i r c :
  (∀ X labels, kmeans_fit_predict N_CLUSTERS X = Ok labels →
     Forall (λ c, 0 ≤ c < N_CLUSTERS)%Z labels) →
  generate_credit_scores minmax_fit_transform kmeans_fit_predict series_mean df = Ok df' →
  cluster df' = Some labels → credit_score df' = Some scores →
  rows df' !! i = Some r → labels !! i = Some c →
  Forall (λ c, 0 ≤ c < N_CLUSTERS)%Z labels ∧
  (∀ c, c ∈ labels → is_nan (health_of (rows df) labels c) = false) ∧
  (0 ≤ dense_rank (metric_of (rows df) labels).*2 (health_of (rows df) labels c) - 1 ≤ 4)%Z ∧
  scores !! i =
  Some (250 * (dense_rank (metric_of (rows df) labels).*2 (health_of (rows df) labels c) - 1))%Z.
Proof.
  intros Hrange H Hl Hs Hi Hc.
  destruct (score_at _ _ _ _ H Hi) as (labels' & scores' & _ & Hl' & Hs' & Hk & _ & Hnan & Hat).
  rewrite Hl in Hl'. injection Hl' as <-. rewrite Hs in Hs'. injection Hs' as <-.
  pose proof (Hrange _ _ Hk) as Hr.
  assert (c ∈ labels) as Hin by (by eapply list_elem_of_lookup_2).
  assert (0 ≤ dense_rank (metric_of (rows df) labels).*2 (health_of (rows df) labels c) - 1 ≤ 4)%Z
    as Hb.
  { pose proof (dense_rank_bounds (metric_of (rows df) labels).*2
      (health_of (rows df) labels c)) as B.
    rewrite metric_values in B |- *. rewrite length_fmap in B.
    pose proof (group_keys_bound _ Hr).
    specialize (B ltac:(apply list_elem_of_fmap; exists c; split; [done|by apply elem_of_group_keys])).
    lia. }
  split; [done|]. split; [exact Hnan|]. split; [exact Hb|].
  by rewrite (Hat _ _ Hc), scaled_rank.
Qed.

(** C3: when the clustering returns labels in [0, N_CLUSTERS), every row of the
    scored table has its [credit_score] in {0, 250, 500, 750, 1000}, hence in
    [0, 1000]. *)
Theorem score_range df df' scores i r v :
  (∀ X labels, kmeans_fit_predict N_CLUSTERS X = Ok labels →
     Forall (λ c, 0 ≤ c < N_CLUSTERS)%Z labels) →
  generate_credit_scores minmax_fit_transform kmeans_fit_predict series_mean df = Ok df' →
  credit_score df' = Some scores →
  rows df' !! i = Some r → scores !! i = Some v →
  v ∈ [0; 250; 500; 750; 1000]%Z ∧ (0 ≤ v ≤ 1000)%Z.
Proof.
  intros Hrange H Hs Hi Hv.
  destruct (score_at _ _ _ _ H Hi) as (labels & scores' & c & Hl & Hs' & _ & Hc & _).
  destruct (score_formula _ _ _ _ _ _ _ Hrange H Hl Hs Hi Hc) as (_ & _ & Hb & Hf).
  rewrite Hv in Hf. injection Hf as ->.
  set (k := (dense_rank _ _ - 1)%Z) in *.
  assert (k = 0 ∨ k = 1 ∨ k = 2 ∨ k = 3 ∨ k = 4)%Z as [->|[->|[->|[->| ->]]]] by lia;
    (split; [set_solver|lia]).
Qed.

(** C2, amended: a wallet's score is 250 times the number of distinct health
    values below the health of its cluster; the cluster of lowest health scores
    0; the cluster of highest health scores 1000 when all five clusters occur
    and no two of them have equal health. *)
Theorem rank_scores df df' labels scores i r c :
  (∀ X labels, kmeans_fit_predict N_CLUSTERS X = Ok labels →
     Forall (λ c, 0 ≤ c < N_CLUSTERS)%Z labels) →
  generate_credit_scores minmax_fit_transform kmeans_fit_predict series_mean df = Ok df' →
  cluster df' = Some labels → credit_score df' = Some scores →
  rows df' !! i = Some r → labels !! i = Some c →
  let h := health_of (rows df) labels in
  scores !! i = Some (250 * (dense_rank (metric_of (rows df) labels).*2 (h c) - 1))%Z ∧
  ((∀ c', c' ∈ labels → (h c' <? h c)%float = false) → scores !! i = Some 0%Z) ∧
  ((∀ k, (0 ≤ k < N_CLUSTERS)%Z → k ∈ labels) →
   (∀ a b, a ∈ labels → b ∈ labels → a ≠ b → (h a =? h b)%float = false) →
   (∀ c', c' ∈ labels → (h c <? h c')%float = false) →
   scores !! i = Some 1000%Z).
Proof.
  intros Hrange H Hl Hs Hi Hc h. subst h.
  destruct (score_formula _ _ _ _ _ _ _ Hrange H Hl Hs Hi Hc) as (Hr & Hnan & _ & Hf).
  rewrite Hf. split_and!; [done| |].
  - intros Hlow. rewrite dense_rank_lowest; [done|].
    intros y. rewrite metric_values. intros (c' & -> & Hc')%list_elem_of_fmap.
    apply Hlow. by apply elem_of_group_keys.
  - intros Hall Hd Hmax. rewrite metric_values.
    rewrite (dense_rank_highest (health_of (rows df) labels) (group_keys labels) c).
    + by rewrite (group_keys_full _ Hr Hall).
    + apply NoDup_group_keys.
    + apply elem_of_group_keys. by eapply list_elem_of_lookup_2.
    + intros a Ha. apply Hnan. by apply elem_of_group_keys.
    + intros a b Ha Hb. apply Hd; by apply elem_of_group_keys.
    + intros a Ha. apply Hmax. by apply elem_of_group_keys.
Qed.

(** C7: on the empty record list the feature engineer returns the empty table,
    and on an empty table the scorer returns its argument as it is, whatever
    the clustering step would do. *)
Theorem empty_input fos df :
  frame_empty df = true →
  engineer_features fos [] = Ok empty_frame ∧
  generate_credit_scores minmax_fit_transform kmeans_fit_predict series_mean df = Ok df.
Proof.
  intros He. split; [done|]. unfold generate_credit_scores. by rewrite He.
Qed.
End scorer_facts.

(** ** Signs of the features *)

Lemma sorted_span (ts : list Z) t0 t1 l :
  merge_sort Z.le ts = t0 :: t1 :: l → (0 ≤ List.last (t0 :: t1 :: l) t0 - t0)%Z.
Proof.
  intros E. pose proof (StronglySorted_merge_sort Z.le ts) as S. rewrite E in S.
  apply StronglySorted_cons in S as [S _]. rewrite Forall_forall in S.
  assert (List.last (t0 :: t1 :: l) t0 ∈ t1 :: l) as Hin.
  { change (List.last (t0 :: t1 :: l) t0) with (List.last (t1 :: l) t0).
    clear. revert t1. induction l as [|x l IH]; intros t1.
    - apply list_elem_of_here.
    - apply list_elem_of_further. apply (IH x). }
  apply S in Hin. lia.
Qed.

(** ** Rounding, by value *)

Section rounding.
Local Open Scope Z_scope.

Lemma digits2_bounds p :
  2 ^ (Zpos (digits2_pos p) - 1) <= Zpos p < 2 ^ Zpos (digits2_pos p).
Proof.
  induction p as [p IH|p IH|]; cbn [digits2_pos].
  - rewrite Pos2Z.inj_succ.
    replace (Z.succ (Zpos (digits2_pos p)) - 1) with (Z.succ (Zpos (digits2_pos p) - 1)) by lia.
    rewrite !Z.pow_succ_r by lia. lia.
  - rewrite Pos2Z.inj_succ.
    replace (Z.succ (Zpos (digits2_pos p)) - 1) with (Z.succ (Zpos (digits2_pos p) - 1)) by lia.
    rewrite !Z.pow_succ_r by lia. lia.
  - simpl. lia.
Qed.

Lemma Zdigits2_bounds m : 0 < m -> 2 ^ (Zdigits2 m - 1) <= m < 2 ^ Zdigits2 m.
Proof. destruct m as [|p|p]; [lia| |lia]. intros _. apply digits2_bounds. Qed.

Lemma Zdigits2_nonneg m : 0 <= Zdigits2 m.
Proof. destruct m; simpl; lia. Qed.

Lemma Zdigits2_pos m : 0 < m -> 0 < Zdigits2 m.
Proof. destruct m; simpl; lia. Qed.

Lemma Zdigits2_le m d : 0 <= m < 2 ^ d -> 0 <= d -> Zdigits2 m <= d.
Proof.
  intros [H0 Hm] Hd. destruct (Z.eq_dec m 0) as [->|Hne]; [done|].
  pose proof (Zdigits2_bounds m ltac:(lia)) as [Hl _].
  destruct (Z.le_gt_cases (Zdigits2 m) d) as [|Hgt]; [done|exfalso].
  assert (2 ^ d <= 2 ^ (Zdigits2 m - 1)) by (apply Z.pow_le_mono_r; lia). lia.
Qed.

Lemma Zdigits2_ge m d : 2 ^ (d - 1) <= m -> 0 < m -> d <= Zdigits2 m.
Proof.
  intros Hm H0. pose proof (Zdigits2_bounds m H0) as [_ Hu].
  pose proof (Zdigits2_pos m H0).
  destruct (Z.le_gt_cases d (Zdigits2 m)) as [|Hgt]; [done|exfalso].
  assert (2 ^ Zdigits2 m <= 2 ^ (d - 1)) by (apply Z.pow_le_mono_r; lia). lia.
Qed.

Lemma Zdigits2_unique m d : 2 ^ (d - 1) <= m < 2 ^ d -> 0 < m -> Zdigits2 m = d.
Proof.
  intros [Hl Hu] H0. apply Z.le_antisymm.
  - apply Zdigits2_le; [lia|]. destruct (Z.le_gt_cases 0 d); [done|].
    rewrite Z.pow_neg_r in Hu by lia. lia.
  - by apply Zdigits2_ge.
Qed.

Lemma Zdigits2_mono a b : 0 <= a <= b -> Zdigits2 a <= Zdigits2 b.
Proof.
  intros [Ha Hb]. destruct (Z.eq_dec a 0) as [->|]; [apply Zdigits2_nonneg|].
  apply Zdigits2_ge; [|lia]. pose proof (Zdigits2_bounds a ltac:(lia)). lia.
Qed.

Lemma Zdigits2_succ m : 0 <= m -> Zdigits2 (m + 1) <= Zdigits2 m + 1.
Proof.
  intros H0. destruct (Z.eq_dec m 0) as [->|]; [done|].
  pose proof (Zdigits2_bounds m ltac:(lia)) as [_ Hu].
  pose proof (Zdigits2_pos m ltac:(lia)).
  apply Zdigits2_le; [|lia]. rewrite Z.pow_add_r, Z.pow_1_r by lia. lia.
Qed.

Lemma Zdigits2_mul_pow2 c n : 0 < c -> 0 <= n -> Zdigits2 (c * 2 ^ n) = Zdigits2 c + n.
Proof.
  intros Hc Hn. pose proof (Zdigits2_bounds c Hc) as [Hl Hu].
  pose proof (Zdigits2_pos c Hc).
  assert (0 < 2 ^ n) by (apply Z.pow_pos_nonneg; lia).
  apply Zdigits2_unique; [|lia].
  replace (Zdigits2 c + n - 1) with (Zdigits2 c - 1 + n) by lia.
  rewrite !Z.pow_add_r by lia. nia.
Qed.

Lemma div_pow2_bounds m d k :
  2 ^ (d - 1) <= m < 2 ^ d -> 0 <= k <= d - 1 ->
  2 ^ (d - 1 - k) <= m / 2 ^ k < 2 ^ (d - k).
Proof.
  intros [Hl Hu] Hk. assert (0 < 2 ^ k) by (apply Z.pow_pos_nonneg; lia). split.
  - apply Z.div_le_lower_bound; [done|].
    rewrite <- Z.pow_add_r by lia. by replace (k + (d - 1 - k)) with (d - 1) by lia.
  - apply Z.div_lt_upper_bound; [done|].
    rewrite <- Z.pow_add_r by lia. by replace (k + (d - k)) with d by lia.
Qed.

Lemma Zdigits2_div m k :
  0 <= m -> 0 <= k -> Zdigits2 (m / 2 ^ k) <= Z.max 0 (Zdigits2 m - k).
Proof.
  intros H0 Hk. assert (0 < 2 ^ k) by (apply Z.pow_pos_nonneg; lia).
  destruct (Z.eq_dec m 0) as [->|]; [rewrite Z.div_0_l by lia; simpl; lia|].
  pose proof (Zdigits2_bounds m ltac:(lia)) as [_ Hu].
  destruct (Z.le_gt_cases (Zdigits2 m) k) as [Hle|Hgt].
  - rewrite Z.div_small; [simpl; lia|].
    assert (2 ^ Zdigits2 m <= 2 ^ k) by (apply Z.pow_le_mono_r; lia). lia.
  - apply Zdigits2_le; [|lia]. rewrite Z.max_r by lia. split.
    + apply Z.div_pos; lia.
    + apply Z.div_lt_upper_bound; [done|].
      rewrite <- Z.pow_add_r by lia. by replace (k + (Zdigits2 m - k)) with (Zdigits2 m) by lia.
Qed.

(** [shr_1] halves. *)
Lemma shr_1_value mrs : 0 <= shr_m mrs -> shr_m (shr_1 mrs) = shr_m mrs / 2.
Proof.
  destruct mrs as [[|[p|p|]|p] r s]; cbn [shr_m shr_1]; intros H; try done;
    rewrite <- Z.div2_div; done.
Qed.

Lemma shr_iter_value n : forall mrs, 0 <= shr_m mrs ->
  shr_m (Nat.iter n shr_1 mrs) = shr_m mrs / 2 ^ Z.of_nat n.
Proof.
  induction n as [|n IH]; intros mrs H.
  - simpl. by rewrite Z.div_1_r.
  - assert (0 < 2 ^ Z.of_nat n) by (apply Z.pow_pos_nonneg; lia).
    rewrite Nat.iter_succ, shr_1_value; rewrite IH by done.
    + rewrite Nat2Z.inj_succ, Z.pow_succ_r, Z.div_div by lia. f_equal. lia.
    + by apply Z.div_pos.
Qed.

Lemma shr_1_even a :
  0 <= a ->
  shr_1 {| shr_m := 2 * a; shr_r := false; shr_s := false |}
  = {| shr_m := a; shr_r := false; shr_s := false |}.
Proof. destruct a; done. Qed.

Lemma shr_iter_exact n : forall c, 0 <= c ->
  Nat.iter n shr_1 {| shr_m := c * 2 ^ Z.of_nat n; shr_r := false; shr_s := false |}
  = {| shr_m := c; shr_r := false; shr_s := false |}.
Proof.
  induction n as [|n IH]; intros c Hc.
  - simpl. by rewrite Z.mul_1_r.
  - rewrite Nat.iter_succ_r, Nat2Z.inj_succ, Z.pow_succ_r by lia.
    replace (c * (2 * 2 ^ Z.of_nat n)) with (2 * (c * 2 ^ Z.of_nat n)) by lia.
    rewrite shr_1_even; [by apply IH|].
    assert (0 < 2 ^ Z.of_nat n) by (apply Z.pow_pos_nonneg; lia). nia.
Qed.

Lemma shr_value mrs e n :
  0 <= shr_m mrs ->
  shr_m (fst (shr mrs e n)) = shr_m mrs / 2 ^ Z.max 0 n /\
  snd (shr mrs e n) = e + Z.max 0 n.
Proof.
  intros H. destruct n as [|p|p]; cbn [shr fst snd].
  - rewrite Z.max_id. simpl. rewrite Z.div_1_r. lia.
  - rewrite iter_pos_nat, shr_iter_value, positive_nat_Z by done.
    rewrite Z.max_r by lia. done.
  - rewrite Z.max_l by lia. simpl. rewrite Z.div_1_r. lia.
Qed.

Lemma shr_exact c e n :
  0 <= c -> 0 <= n ->
  shr {| shr_m := c * 2 ^ n; shr_r := false; shr_s := false |} e n
  = ({| shr_m := c; shr_r := false; shr_s := false |}, e + n).
Proof.
  intros Hc Hn. destruct n as [|p|p]; [| |lia]; cbn [shr].
  - by rewrite Z.mul_1_r, Z.add_0_r.
  - rewrite iter_pos_nat. rewrite <- (positive_nat_Z p) at 1.
    by rewrite shr_iter_exact.
Qed.

Lemma shr_record_of_loc_m m l : shr_m (shr_record_of_loc m l) = m.
Proof. by destruct l as [|[]]. Qed.

Lemma round_nearest_even_bounds m l :
  m <= round_nearest_even m l <= m + 1.
Proof. destruct l as [|[]]; simpl; try lia. destruct (Z.even m); lia. Qed.

(** The two shifts of [binary_round_aux], by value. *)
Lemma binary_round_aux_value sx m e l :
  0 <= m ->
  exists m1 m2 e1 e2,
    m / 2 ^ (e1 - e) <= m1 <= m / 2 ^ (e1 - e) + 1 /\
    e1 = e + Z.max 0 (fexp prec emax (Zdigits2 m + e) - e) /\
    m2 = m1 / 2 ^ (e2 - e1) /\
    e2 = e1 + Z.max 0 (fexp prec emax (Zdigits2 m1 + e1) - e1) /\
    binary_round_aux prec emax sx m e l =
    match m2 with
    | Z0 => S754_zero sx
    | Zpos p => if e2 <=? emax - prec then S754_finite sx p e2 else S754_infinity sx
    | Zneg _ => S754_nan
    end.
Proof.
  intros H0. unfold binary_round_aux, shr_fexp.
  pose proof (shr_value (shr_record_of_loc m l) e
                (fexp prec emax (Zdigits2 m + e) - e)) as [V1 E1];
    [by rewrite shr_record_of_loc_m|].
  rewrite shr_record_of_loc_m in V1.
  destruct (shr (shr_record_of_loc m l) e _) as [mrs1 e1]. cbn [fst snd] in V1, E1.
  set (m1 := round_nearest_even (shr_m mrs1) (loc_of_shr_record mrs1)).
  pose proof (round_nearest_even_bounds (shr_m mrs1) (loc_of_shr_record mrs1)) as B.
  fold m1 in B.
  assert (0 <= shr_m mrs1) as P1.
  { rewrite V1. apply Z.div_pos; [done|]. apply Z.pow_pos_nonneg; lia. }
  pose proof (shr_value (shr_record_of_loc m1 loc_Exact) e1
                (fexp prec emax (Zdigits2 m1 + e1) - e1)) as [V2 E2];
    [cbn [shr_record_of_loc shr_m]; lia|].
  cbn [shr_record_of_loc shr_m] in V2, E2 |- *.
  destruct (shr _ e1 _) as [mrs2 e2]. cbn [fst snd] in V2, E2.
  exists m1, (shr_m mrs2), e1, e2.
  replace (e1 - e) with (Z.max 0 (fexp prec emax (Zdigits2 m + e) - e)) by lia.
  replace (e2 - e1) with (Z.max 0 (fexp prec emax (Zdigits2 m1 + e1) - e1)) by lia.
  rewrite <- V1. split_and!; try done; lia.
Qed.

(** A rounding that stays below the largest exponent is finite. *)
Lemma binary_round_aux_finite sx m e l :
  0 <= m -> e <= 971 -> Zdigits2 m + e <= 1023 ->
  match binary_round_aux prec emax sx m e l with
  | S754_zero s | S754_finite s _ _ => s = sx
  | _ => False
  end.
Proof.
  intros H0 He HD.
  destruct (binary_round_aux_value sx m e l H0) as (m1 & m2 & e1 & e2 & B & E1 & V2 & E2 & ->).
  assert (0 <= e1 - e) by lia.
  pose proof (Zdigits2_div m (e1 - e) H0 ltac:(lia)) as D1.
  assert (0 <= m / 2 ^ (e1 - e)) as P1
    by (apply Z.div_pos; [done|apply Z.pow_pos_nonneg; lia]).
  pose proof (Zdigits2_mono m1 (m / 2 ^ (e1 - e) + 1) ltac:(lia)) as D2.
  pose proof (Zdigits2_succ _ P1) as D3.
  assert (0 <= m2) as P2.
  { rewrite V2. apply Z.div_pos; [lia|]. apply Z.pow_pos_nonneg; lia. }
  assert (e2 <= 971) as Hle.
  { unfold fexp, SpecFloat.emin, emax, prec in *. lia. }
  destruct m2 as [|p|p]; [done| |lia].
  unfold emax, prec. rewrite (proj2 (Z.leb_le _ _)) by lia. done.
Qed.

(** A rounding of at least 53 digits, in the range of the normal numbers, is
    a valid float or an overflow. *)
Lemma binary_round_aux_valid sx m e l :
  0 < m -> 53 <= Zdigits2 m -> -1021 <= Zdigits2 m + e ->
  match binary_round_aux prec emax sx m e l with
  | S754_infinity s => s = sx
  | S754_finite s p e' => s = sx /\ valid_binary (S754_finite s p e') = true
  | _ => False
  end.
Proof.
  intros H0 Hd HD.
  destruct (binary_round_aux_value sx m e l ltac:(lia)) as (m1 & m2 & e1 & e2 & B & E1 & V2 & E2 & ->).
  pose proof (Zdigits2_bounds m H0) as Bm.
  assert (e1 - e = Zdigits2 m - 53) as En
    by (unfold fexp, SpecFloat.emin, emax, prec in *; lia).
  rewrite En in B.
  pose proof (div_pow2_bounds m (Zdigits2 m) (Zdigits2 m - 53) Bm ltac:(lia)) as B1.
  replace (Zdigits2 m - 1 - (Zdigits2 m - 53)) with 52 in B1 by lia.
  replace (Zdigits2 m - (Zdigits2 m - 53)) with 53 in B1 by lia.
  assert (2 ^ 52 <= m1 <= 2 ^ 53) as B1' by lia.
  assert (53 <= Zdigits2 m1 <= 54) as Hd1.
  { split; [apply Zdigits2_ge; lia|]. apply Zdigits2_le; lia. }
  assert (e2 - e1 = Zdigits2 m1 - 53) as En2
    by (unfold fexp, SpecFloat.emin, emax, prec in *; lia).
  rewrite En2 in V2.
  pose proof (Zdigits2_bounds m1 ltac:(lia)) as Bm1.
  pose proof (div_pow2_bounds m1 (Zdigits2 m1) (Zdigits2 m1 - 53) Bm1 ltac:(lia)) as B2.
  rewrite <- V2 in B2.
  replace (Zdigits2 m1 - 1 - (Zdigits2 m1 - 53)) with 52 in B2 by lia.
  replace (Zdigits2 m1 - (Zdigits2 m1 - 53)) with 53 in B2 by lia.
  destruct m2 as [|p|p]; [lia| |lia].
  destruct (e2 <=? emax - prec) eqn:Hle; [|done]. split; [done|].
  cbn [valid_binary]. unfold bounded, canonical_mantissa. rewrite Hle, andb_true_r.
  apply Z.eqb_eq.
  change (Z.pos (digits2_pos p)) with (Zdigits2 (Z.pos p)).
  rewrite (Zdigits2_unique (Z.pos p) 53) by lia.
  unfold fexp, SpecFloat.emin, emax, prec in *. lia.
Qed.

(** An exact rounding. *)
Lemma binary_round_aux_exact sx c e n :
  0 < c -> 0 <= n ->
  fexp prec emax (Zdigits2 (c * 2 ^ n) + e) = e + n -> e + n <= 971 ->
  binary_round_aux prec emax sx (c * 2 ^ n) e loc_Exact
  = S754_finite sx (Z.to_pos c) (e + n).
Proof.
  intros Hc Hn Hf Hle. unfold binary_round_aux, shr_fexp.
  replace (fexp prec emax (Zdigits2 (c * 2 ^ n) + e) - e) with n by lia.
  cbn [shr_record_of_loc]. rewrite shr_exact by lia.
  cbn [loc_of_shr_record shr_m round_nearest_even shr_record_of_loc].
  rewrite Zdigits2_mul_pow2 in Hf by done.
  replace (Zdigits2 c + (e + n)) with (Zdigits2 c + n + e) by lia.
  rewrite Hf, Z.sub_diag.
  cbn [shr shr_m]. destruct c as [|p|p]; [lia| |lia].
  unfold emax, prec. rewrite (proj2 (Z.leb_le _ _)) by lia. done.
Qed.

End rounding.

(** ** The counters are integers below 2^53 *)

Section counters.
Local Open Scope Z_scope.

Lemma iter_xO_value m d : Zpos (Pos.iter xO m d) = Zpos m * 2 ^ Zpos d.
Proof.
  induction d as [|d IH] using Pos.peano_ind.
  - simpl. lia.
  - rewrite Pos.iter_succ, Pos2Z.inj_succ, Z.pow_succ_r, Pos2Z.inj_xO, IH by lia. lia.
Qed.

Lemma shl_align_value mx ex ex' :
  ex' <= ex -> Zpos (fst (shl_align mx ex ex')) = Zpos mx * 2 ^ (ex - ex').
Proof.
  intros H. unfold shl_align. destruct (ex' - ex) as [|d|d] eqn:E; cbn [fst].
  - replace (ex - ex') with 0 by lia. lia.
  - lia.
  - rewrite iter_xO_value. f_equal. f_equal. lia.
Qed.

Lemma shl_align_id mx ex ex' : ex <= ex' -> shl_align mx ex ex' = (mx, ex).
Proof. intros H. unfold shl_align. destruct (ex' - ex) eqn:E; [done|done|lia]. Qed.

Lemma sf_integer_digits m : 2 ^ 52 <= Zpos m < 2 ^ 53 -> Zdigits2 (Zpos m) = 53.
Proof. intros H. apply Zdigits2_unique; [done|lia]. Qed.

(** Adding 1.0 to the integer [k < 2^53] is exact. *)
Lemma SFadd_integer k s :
  1 <= k < 2 ^ 53 -> sf_integer k s -> sf_integer (k + 1) (SF64add s (Prim2SF 1)).
Proof.
  intros Hk (m & e & -> & Hm & He & Hv).
  change (Prim2SF 1) with (S754_finite false 4503599627370496 (-52)).
  unfold SF64add, SFadd. rewrite Z.min_r by lia. cbn [cond_Zopp].
  pose proof (shl_align_value m e (-52) ltac:(lia)) as H1.
  replace (e - -52) with (e + 52) in H1 by lia. rewrite Hv in H1.
  rewrite (shl_align_id 4503599627370496 (-52) (-52)) by lia. cbn [fst].
  set (m1 := fst (shl_align m e (-52))) in *.
  change (Zpos m1 + Zpos 4503599627370496) with (Zpos (m1 + 4503599627370496)).
  cbn [binary_normalize].
  set (M := (m1 + 4503599627370496)%positive).
  assert (Zpos M = (k + 1) * 2 ^ 52) as HM by (unfold M; rewrite Pos2Z.inj_add, H1; lia).
  set (d := Zdigits2 (k + 1)).
  assert (Zdigits2 (Zpos M) = d + 52) as HdM
    by (rewrite HM; apply Zdigits2_mul_pow2; lia).
  pose proof (Zdigits2_bounds (k + 1) ltac:(lia)) as Bk. fold d in Bk.
  assert (1 <= d <= 54) as Hd.
  { split; [pose proof (Zdigits2_pos (k + 1)); lia|]. apply Zdigits2_le; lia. }
  unfold binary_round. change (Zpos (digits2_pos M)) with (Zdigits2 (Zpos M)).
  rewrite HdM.
  rewrite shl_align_id by (unfold fexp, SpecFloat.emin, emax, prec; lia).
  assert (exists c, 0 < c /\ Zpos M = c * 2 ^ (d - 1) /\ 2 ^ 52 <= c < 2 ^ 53)
    as (c & Hc & HMc & Bc).
  { destruct (Z.eq_dec d 54) as [E|E].
    - exists (2 ^ 52). rewrite E in *. split; [lia|]. split; [|lia].
      rewrite HM. replace (k + 1) with (2 ^ 53) by lia. lia.
    - exists ((k + 1) * 2 ^ (53 - d)).
      assert (0 < 2 ^ (53 - d)) by (apply Z.pow_pos_nonneg; lia).
      assert (2 ^ (d - 1) * 2 ^ (53 - d) = 2 ^ 52) as P1
        by (rewrite <- Z.pow_add_r by lia; f_equal; lia).
      assert (2 ^ d * 2 ^ (53 - d) = 2 ^ 53) as P2
        by (rewrite <- Z.pow_add_r by lia; f_equal; lia).
      split; [nia|]. split; [|nia].
      rewrite HM, <- Z.mul_assoc, (Z.mul_comm (2 ^ (53 - d))), P1. done. }
  rewrite HMc. rewrite binary_round_aux_exact; [|done|lia| |lia].
  - exists (Z.to_pos c), (-52 + (d - 1)). rewrite Z2Pos.id by done.
    split_and!; [done|lia|lia|lia|lia|].
    replace (-52 + (d - 1) + 52) with (d - 1) by lia. by rewrite <- HMc.
  - rewrite <- HMc, HdM. unfold fexp, SpecFloat.emin, emax, prec. lia.
Qed.

(** At 2^53 the sum is a tie, rounded back to 2^53. *)
Lemma SFadd_integer_top s :
  sf_integer (2 ^ 53) s -> SF64add s (Prim2SF 1) = s.
Proof.
  intros (m & e & -> & Hm & He & Hv).
  assert (e = 1 /\ m = 4503599627370496%positive) as [-> ->].
  { assert (e = 1 \/ e <= 0) as [->|H] by lia.
    - split; [done|]. change (2 ^ (1 + 52)) with (2 ^ 53) in Hv. lia.
    - exfalso. assert (2 ^ (e + 52) <= 2 ^ 52) by (apply Z.pow_le_mono_r; lia).
      assert (0 < 2 ^ (e + 52)) by (apply Z.pow_pos_nonneg; lia). nia. }
  by vm_compute.
Qed.

Lemma count_float_integer n :
  (0 < n)%nat -> exists k, 1 <= k <= 2 ^ 53 /\ sf_integer k (Prim2SF (count_float n)).
Proof.
  destruct n as [|n]; [lia|]. intros _. induction n as [|n (k & Hk & IH)].
  - exists 1. split; [lia|]. exists 4503599627370496%positive, (-52).
    split_and!; [by vm_compute|lia..].
  - rewrite count_float_S, add_spec. destruct (Z.eq_dec k (2 ^ 53)) as [->|].
    + exists (2 ^ 53). split; [lia|]. by rewrite SFadd_integer_top.
    + exists (k + 1). split; [lia|]. apply SFadd_integer; [lia|done].
Qed.

End counters.

(** ** Finite and not below zero *)

Lemma finite_nonneg_spec (x : float) :
  sf_finite_nonneg (Prim2SF x) → finite_nonneg x = true.
Proof.
  unfold finite_nonneg, is_finite, is_nan, is_infinity.
  rewrite FloatAxioms.ltb_spec, !FloatAxioms.eqb_spec, abs_spec.
  change (Prim2SF infinity) with (S754_infinity false).
  change (Prim2SF 0) with (S754_zero false).
  unfold SFltb, SFeqb.
  destruct (Prim2SF x) as [[]|[]| |[] m e] eqn:E; try done; intros _.
  rewrite SFcompare_refl by done. done.
Qed.

Lemma sf_integer_finite k s : sf_integer k s → sf_finite_nonneg s.
Proof. by intros (m & e & -> & _). Qed.

Lemma count_float_finite n : sf_finite_nonneg (Prim2SF (count_float n)).
Proof.
  destruct n as [|n]; [done|].
  destruct (count_float_integer (S n)) as (k & _ & H); [lia|].
  by eapply sf_integer_finite.
Qed.

(** ** Quotients *)

Section quotients.
Local Open Scope Z_scope.

Lemma SFdiv_core_bounds m1 e1 m2 e2 q e' l :
  SFdiv_core_binary prec emax (Zpos m1) e1 (Zpos m2) e2 = (q, e', l) ->
  let D := Zdigits2 (Zpos m1) + e1 - (Zdigits2 (Zpos m2) + e2) in
  0 <= q /\ e' <= fexp prec emax D /\ Zdigits2 q + e' <= Z.max e' (D + 1) /\
  (-1021 <= D -> 0 < q /\ 53 <= Zdigits2 q /\ D <= Zdigits2 q + e').
Proof.
  unfold SFdiv_core_binary.
  set (d1 := Zdigits2 (Zpos m1)). set (d2 := Zdigits2 (Zpos m2)).
  set (e0 := Z.min (fexp prec emax (d1 + e1 - (d2 + e2))) (e1 - e2)).
  set (s := e1 - e2 - e0).
  assert (0 <= s) as Hs by lia.
  set (m' := match s with Z.pos _ => Z.shiftl (Zpos m1) s | 0 => Zpos m1 | Z.neg _ => 0 end).
  assert (m' = Zpos m1 * 2 ^ s) as Hm'.
  { unfold m'. destruct s as [|p|p] eqn:E; [lia| |lia].
    rewrite Z.shiftl_mul_pow2 by lia. done. }
  destruct (Z.div_eucl m' (Zpos m2)) as [q0 r0] eqn:Ed.
  assert (q0 = m' / Zpos m2) as Hq by (unfold Z.div; by rewrite Ed).
  intros H. injection H as <- <- <-.
  pose proof (Zdigits2_bounds (Zpos m1) ltac:(lia)) as B1. fold d1 in B1.
  pose proof (Zdigits2_bounds (Zpos m2) ltac:(lia)) as B2. fold d2 in B2.
  assert (0 < d1) as Hd1 by (apply Zdigits2_pos; lia).
  assert (0 < d2) as Hd2 by (apply Zdigits2_pos; lia).
  assert (0 < 2 ^ s) as Hp by (apply Z.pow_pos_nonneg; lia).
  assert (0 < m') as Hm0 by nia.
  assert (Zdigits2 m' = d1 + s) as Hdm by (rewrite Hm'; apply Zdigits2_mul_pow2; lia).
  assert (0 <= q0) as Hq0 by (rewrite Hq; apply Z.div_pos; lia).
  split_and!; [done|lia| |].
  - assert (q0 <= m' / 2 ^ (d2 - 1)) as Hle.
    { rewrite Hq. apply Z.div_le_compat_l; [lia|]. split; [|lia].
      apply Z.pow_pos_nonneg; lia. }
    pose proof (Zdigits2_mono q0 _ (conj Hq0 Hle)) as M1.
    pose proof (Zdigits2_div m' (d2 - 1) ltac:(lia) ltac:(lia)) as M2.
    rewrite Hdm in M2. lia.
  - intros HD.
    assert (e0 <= d1 + e1 - (d2 + e2) - 53) as He0
      by (unfold e0, fexp, SpecFloat.emin, emax, prec; lia).
    assert (2 ^ (d1 + s - 1 - d2) <= q0) as Hlow.
    { transitivity (m' / 2 ^ d2).
      - apply Z.div_le_lower_bound; [apply Z.pow_pos_nonneg; lia|].
        rewrite <- Z.pow_add_r by lia.
        replace (d2 + (d1 + s - 1 - d2)) with (d1 - 1 + s) by lia.
        rewrite Z.pow_add_r, Hm' by lia. nia.
      - rewrite Hq. apply Z.div_le_compat_l; lia. }
    assert (0 < 2 ^ (d1 + s - 1 - d2)) by (apply Z.pow_pos_nonneg; lia).
    assert (d1 + s - d2 <= Zdigits2 q0) as Hdq.
    { apply Zdigits2_ge; [|lia]. by replace (d1 + s - d2 - 1) with (d1 + s - 1 - d2) by lia. }
    lia.
Qed.

(** A quotient of magnitude below 2^1022 is finite. *)
Lemma SFdiv_finite m1 e1 m2 e2 :
  Zdigits2 (Zpos m1) + e1 - (Zdigits2 (Zpos m2) + e2) <= 1022 ->
  sf_finite_nonneg (SF64div (S754_finite false m1 e1) (S754_finite false m2 e2)).
Proof.
  intros H. unfold SF64div, SFdiv.
  destruct (SFdiv_core_binary _ _ _ _ _ _) as [[q e'] l] eqn:E.
  destruct (SFdiv_core_bounds _ _ _ _ _ _ _ E) as (Hq & He & Hd & _).
  pose proof (binary_round_aux_finite (xorb false false) q e' l Hq) as F.
  assert (e' <= 971) as H1 by (unfold fexp, SpecFloat.emin, emax, prec in *; lia).
  assert (Zdigits2 q + e' <= 1023) as H2 by lia.
  specialize (F H1 H2).
  destruct (binary_round_aux _ _ _ _ _ _) as [sz|si| |sf mf ef]; try done.
  cbn in F. by subst.
Qed.

Lemma SFdiv_zero_finite_nonneg m e :
  sf_finite_nonneg (SF64div (S754_zero false) (S754_finite false m e)).
Proof. done. Qed.

(** A counter over a positive counter. *)
Lemma count_ratio_finite a b :
  (0 < b)%nat -> sf_finite_nonneg (Prim2SF (count_float a / count_float b)).
Proof.
  intros Hb. rewrite div_spec.
  destruct (count_float_integer b Hb) as (kb & _ & mb & eb & -> & Bb & Eb & _).
  destruct a as [|a]; [done|].
  destruct (count_float_integer (S a)) as (ka & _ & ma & ea & -> & Ba & Ea & _);
    [lia|].
  apply SFdiv_finite. rewrite !sf_integer_digits by done. lia.
Qed.

(** A finite value that is not below zero, over a counter above 1. *)
Lemma over_count_finite (x : float) n :
  sf_finite_nonneg (Prim2SF x) -> (1 <? count_float n)%float = true ->
  sf_finite_nonneg (Prim2SF (x / count_float n)).
Proof.
  intros Hx Hn. rewrite div_spec.
  destruct n as [|n]; [done|].
  destruct (count_float_integer (S n)) as (k & Hk & m & e & Hs & Bm & Be & Hv);
    [lia|].
  rewrite FloatAxioms.ltb_spec, Hs in Hn.
  change (Prim2SF 1) with (S754_finite false 4503599627370496 (-52)) in Hn.
  assert (-51 <= e) as He.
  { destruct (Z.eq_dec e (-52)) as [->|]; [exfalso|lia].
    change (2 ^ (-52 + 52)) with 1 in Hv.
    assert (k = 1) by lia. subst k.
    assert (m = 4503599627370496%positive) as -> by lia.
    by vm_compute in Hn. }
  rewrite Hs. pose proof (Prim2SF_valid x) as V.
  destruct (Prim2SF x) as [sx| | |[] mx ex]; try done.
  apply SFdiv_finite. rewrite (sf_integer_digits m) by done.
  cbn [valid_binary] in V. unfold bounded, canonical_mantissa in V.
  apply andb_prop in V as [V1 V2]. apply Z.eqb_eq in V1. apply Z.leb_le in V2.
  change (Zdigits2 (Zpos mx)) with (Zpos (digits2_pos mx)).
  unfold fexp, SpecFloat.emin, emax, prec in *. lia.
Qed.

(** The quotient of a time span by the seconds of a day. *)
Lemma int_truediv_finite d f :
  0 <= d -> int_truediv d 86400 = Ok f -> sf_finite_nonneg (Prim2SF f).
Proof.
  unfold int_truediv. rewrite bool_decide_false by done. intros Hd.
  destruct d as [|p|p]; [| |lia].
  - cbn. intros [= <-]. done.
  - cbn [Z2SF]. unfold SFdiv.
    destruct (SFdiv_core_binary _ _ _ _ _ _) as [[q e'] l] eqn:E.
    destruct (SFdiv_core_bounds _ _ _ _ _ _ _ E) as (_ & _ & _ & Hlow).
    change (Zdigits2 86400) with 17 in Hlow.
    pose proof (Zdigits2_pos (Zpos p) ltac:(lia)) as Hp.
    destruct Hlow as (Hq & H53 & HD); [lia|].
    pose proof (binary_round_aux_valid (xorb false false) q e' l Hq H53 ltac:(lia)) as V.
    destruct (binary_round_aux _ _ _ _ _ _) as [| | |s m e] eqn:R; try done.
    destruct V as [-> V]. intros [= <-].
    change (Z.ldexp _ e) with (SF2Prim (S754_finite false m e)).
    by rewrite Prim2SF_SF2Prim.
Qed.

End quotients.

(** ** The feature rows, field by field *)

Lemma row_of_counts_fields w n nb nr nl ts usd r :
  row_of_counts w n nb nr nl ts usd = Ok r →
  wallet r = w ∧ total_tx r = count_float n ∧ total_usd_all_actions r = usd ∧
  num_liquidations r = count_float nl ∧
  liquidation_ratio r =
    (if (0 <? count_float n)%float then count_float nl / count_float n else 0)%float ∧
  avg_time_between_tx_days r =
    (if (1 <? count_float n)%float then active_days r / count_float n else 0)%float ∧
  match merge_sort Z.le ts with
  | t0 :: t1 :: l => int_truediv (List.last (t0 :: t1 :: l) t0 - t0) 86400
  | _ => Ok 0%float
  end = Ok (active_days r).
Proof.
  unfold row_of_counts.
  destruct (match merge_sort _ _ with [] => _ | _ => _ end) as [ad|] eqn:E; [|done].
  cbn [mbind result_bind]. intros [= <-]. cbn. split_and!; try done.
  by destruct (merge_sort Z.le ts) as [|? [|? ?]].
Qed.

(** The USD total of a wallet, one record after the other. *)
Lemma bump_all_usd n e :
  default 0%float (bump_all n e !! "total_usd_all_actions") =
  usd_step (default 0%float (n !! "total_usd_all_actions")) e.
Proof.
  unfold bump_all, usd_step. rewrite !lookup_bump. simpl.
  destruct (decide (entry_action e = "all_actions")) as [E|E].
  - rewrite E. simpl. done.
  - rewrite decide_False; [done|]. intros [= ?]. done.
Qed.

Lemma fold_usd es : ∀ n,
  default 0%float (fold_left bump_all es n !! "total_usd_all_actions") =
  fold_left usd_step es (default 0%float (n !! "total_usd_all_actions")).
Proof.
  induction es as [|e es IH]; intros n; [done|].
  cbn [fold_left]. by rewrite IH, bump_all_usd.
Qed.

(** The row of a wallet, USD total included, from its own valid records. *)
Lemma engineer_features_row_full fos raw df es r :
  engineer_features fos raw = Ok df → entries fos raw = Ok es → r ∈ rows df →
  of_wallet (wallet r) es ≠ [] ∧
  row_of_counts (wallet r) (tx_count (wallet r) es)
    (action_count (wallet r) "borrow" es) (action_count (wallet r) "repay" es)
    (action_count (wallet r) "liquidationcall" es)
    (entry_timestamp <$> of_wallet (wallet r) es)
    (fold_left usd_step (of_wallet (wallet r) es) 0%float) = Ok r.
Proof.
  intros Hdf Hes Hr. destruct (decide (raw = [])) as [->|Hraw].
  { injection Hdf as <-. by apply elem_of_nil in Hr. }
  destruct (engineer_features_Ok _ _ _ Hdf Hraw) as (es' & fl & Hes' & Hfl & _ & ->).
  rewrite Hes in Hes'. injection Hes' as <-. simpl in Hr.
  destruct (mapR_Ok_elem _ _ _ _ Hfl Hr) as ([w s] & Hin & Hrow).
  pose proof (feature_row_wallet _ _ _ _ Hrow) as ->.
  split; [by eapply listed_wallet|].
  rewrite feature_row_counts in Hrow by done.
  assert (nums s = fold_left bump_all (of_wallet w es) ∅) as Hn.
  { pose proof (wnums_fold es init_state w) as H. unfold wnums at 1 in H.
    rewrite (dict_get_elem _ _ _ (NoDup_fold es init_state (NoDup_nil_2)) Hin) in H.
    exact H. }
  rewrite Hn, fold_usd in Hrow. exact Hrow.
Qed.

(** ** The features other than the USD total *)

Lemma row_of_counts_finite w n nb nr nl ts usd r :
  (0 < n)%nat →
  row_of_counts w n nb nr nl ts usd = Ok r →
  Forall (λ x, finite_nonneg x = true)
    [ total_tx r; repay_borrow_ratio_count r; num_liquidations r;
      liquidation_ratio r; active_days r; avg_time_between_tx_days r ].
Proof.
  intros Hn. unfold row_of_counts.
  destruct (match merge_sort _ _ with [] => _ | _ => _ end) as [ad|] eqn:Ead; [|done].
  cbn [mbind result_bind]. intros [= <-]. cbn.
  assert (sf_finite_nonneg (Prim2SF ad)) as Had.
  { destruct (merge_sort Z.le ts) as [|t0 [|t1 l]] eqn:E;
      [by injection Ead as <-|by injection Ead as <-|].
    eapply int_truediv_finite; [|done]. by eapply sorted_span. }
  repeat apply Forall_cons_2; [..|apply Forall_nil_2]; apply finite_nonneg_spec.
  - apply count_float_finite.
  - destruct (0 <? count_float nb)%float eqn:E; [|done].
    apply count_ratio_finite. destruct nb; [done|lia].
  - apply count_float_finite.
  - rewrite (count_float_pos n Hn). by apply count_ratio_finite.
  - done.
  - destruct (1 <? count_float n)%float eqn:E; [|done]. by apply over_count_finite.
Qed.

Lemma cleaned_finite x : is_finite (fillna (replace_inf x)) = true.
Proof.
  unfold fillna, replace_inf, is_finite.
  destruct (is_infinity x) eqn:Ei; [done|].
  destruct (is_nan x) eqn:En; [done|]. by rewrite En, Ei.
Qed.

Section skipping.
Variable fos : string → option float.

(** C8, amended: in every row of the feature table [total_tx] is positive and
    every feature other than [total_usd_all_actions] is finite and not below
    zero; [total_usd_all_actions] is the float sum, in arrival order, of the
    USD values of the wallet's valid records, a record of action
    ['all_actions'] being added twice; every entry of the model input built
    from the table is finite. *)
Theorem feature_signs raw df r :
  engineer_features fos raw = Ok df → r ∈ rows df →
  (0 <? total_tx r)%float = true ∧
  Forall (λ x, finite_nonneg x = true)
    [ total_tx r; repay_borrow_ratio_count r; num_liquidations r;
      liquidation_ratio r; active_days r; avg_time_between_tx_days r ] ∧
  (∃ es, entries fos raw = Ok es ∧
     total_usd_all_actions r = fold_left usd_step (of_wallet (wallet r) es) 0%float) ∧
  Forall (Forall (λ x, is_finite x = true)) (model_input (rows df)).
Proof.
  intros Hdf Hr.
  assert (raw ≠ []) as Hraw.
  { intros ->. injection Hdf as <-. by apply elem_of_nil in Hr. }
  destruct (engineer_features_Ok _ _ _ Hdf Hraw) as (es & _ & Hes & _).
  destruct (engineer_features_row_full _ _ _ _ _ Hdf Hes Hr) as (Hne & Hrow).
  assert (0 < tx_count (wallet r) es)%nat as Hn.
  { unfold tx_count. destruct (of_wallet _ es); [done|simpl; lia]. }
  split_and!.
  - apply row_of_counts_fields in Hrow as (_ & -> & _). by apply count_float_pos.
  - by eapply row_of_counts_finite.
  - exists es. split; [done|]. by apply row_of_counts_fields in Hrow as (_ & _ & -> & _).
  - unfold model_input. apply Forall_forall. intros xs (r' & -> & _)%list_elem_of_fmap.
    apply Forall_forall. intros x (y & -> & _)%list_elem_of_fmap. apply cleaned_finite.
Qed.
(** ** Records the loop skips *)

Lemma scan_app l1 l2 st :
  scan fos (l1 ++ l2) st = st' ← scan fos l1 st; scan fos l2 st'.
Proof.
  revert st. induction l1 as [|t l1 IH]; intros st; simpl; [done|].
  destruct (step fos st t); simpl; [apply IH|done].
Qed.

Lemma scan_skip t l1 l2 st :
  parse_tx fos t = Ok None → scan fos (l1 ++ t :: l2) st = scan fos (l1 ++ l2) st.
Proof.
  intros H. rewrite !scan_app. destruct (scan fos l1 st); simpl; [|done].
  unfold step. by rewrite H.
Qed.

Lemma engineer_features_skip t l1 l2 :
  parse_tx fos t = Ok None → l1 ++ l2 ≠ [] →
  engineer_features fos (l1 ++ t :: l2) = engineer_features fos (l1 ++ l2).
Proof.
  intros H Hne. unfold engineer_features.
  rewrite (scan_skip _ _ _ _ H).
  destruct (l1 ++ l2) eqn:E1; [done|]. by destruct (l1 ++ t :: l2) eqn:E2; [destruct l1|].
Qed.

Lemma falsy_essentials t :
  timestamp t = Some 0%Z ∨ userWallet t = Some EmptyString ∨ action t = Some EmptyString →
  essentials t = None.
Proof.
  unfold essentials. intros H.
  destruct (userWallet t) as [w|], (timestamp t) as [ts|]; try done.
  case_bool_decide as E; [|done]. exfalso. destruct E as (E1 & E2 & E3).
  destruct H as [[= ->]|[[= ->]|H]]; [done|done|]. rewrite H in E2. done.
Qed.

(** C10: a record whose timestamp is the integer 0, or whose wallet or action
    is the empty string, is skipped: the loop state is unchanged, and the run
    on the other records is the same. *)
Theorem falsy_fields_dropped t :
  timestamp t = Some 0%Z ∨ userWallet t = Some EmptyString ∨ action t = Some EmptyString →
  (∀ st, step fos st t = Ok st) ∧
  (∀ l1 l2 st, scan fos (l1 ++ t :: l2) st = scan fos (l1 ++ l2) st) ∧
  (∀ l1 l2, l1 ++ l2 ≠ [] →
     engineer_features fos (l1 ++ t :: l2) = engineer_features fos (l1 ++ l2)).
Proof.
  intros H%falsy_essentials.
  assert (parse_tx fos t = Ok None) as Hp by (unfold parse_tx; by rewrite H).
  split_and!.
  - intros st. unfold step. by rewrite Hp.
  - intros. by apply scan_skip.
  - intros. by apply engineer_features_skip.
Qed.

(** A record without one of the three essential fields, or whose amount or
    price [float()] refuses, is skipped by the loop. *)
Lemma invalid_record_skipped t :
  userWallet t = None ∨ action t = None ∨ timestamp t = None ∨
  (∃ e, usd_value fos t = Raise e ∧ e ∈ [ValueError; KeyError; TypeError]) →
  parse_tx fos t = Ok None.
Proof.
  unfold parse_tx. intros H.
  destruct (essentials t) as [[[w a] ts]|] eqn:E; [|done].
  unfold essentials in E.
  destruct (userWallet t) as [w'|], (timestamp t) as [ts'|]; try done.
  case_bool_decide as B; [|done]. destruct B as (B1 & B2 & B3).
  destruct H as [H|[H|[H|(e & H & He)]]]; try done.
  - rewrite H in B2. done.
  - rewrite H. set_unfold. destruct He as [->|[->|[->|[]]]]; done.
Qed.
End skipping.

(** ** Which exceptions leave the feature engineer *)

Lemma float_of_int_raises z e : float_of_int z = Raise e → e = OverflowError.
Proof.
  unfold float_of_int. destruct (binary_normalize _ _ _ _ _); by intros [= <-].
Qed.


Section errors.
Variable fos : string → option float.

Lemma py_float_raises x e :
  py_float fos x = Raise e → e = TypeError ∨ e = ValueError ∨ e = OverflowError.
Proof.
  destruct x as [|b|z|f|s]; simpl; try (intros [= <-]; naive_solver).
  - intros ?%float_of_int_raises. auto.
  - destruct (fos s); intros [= <-]; auto.
Qed.

Lemma usd_value_raises t e :
  usd_value fos t = Raise e →
  e = KeyError ∨ e = TypeError ∨ e = ValueError ∨ e = OverflowError.
Proof.
  unfold usd_value. destruct (actionData t) as [ad|]; [|intros [= <-]; naive_solver].
  destruct (amount ad) as [x|]; [|intros [= <-]; naive_solver].
  destruct (py_float fos x) as [f|e1] eqn:E1; simpl.
  - destruct (py_float fos (default _ _)) as [p|e2] eqn:E2; simpl; [by intros [=]|].
    intros [= <-]. apply py_float_raises in E2. naive_solver.
  - intros [= <-]. apply py_float_raises in E1. naive_solver.
Qed.

Lemma parse_tx_raises t e : parse_tx fos t = Raise e → e = OverflowError.
Proof.
  unfold parse_tx. destruct (essentials t) as [[[w a] ts]|]; [|done].
  destruct (usd_value fos t) as [v|e0] eqn:E; [done|].
  apply usd_value_raises in E.
  destruct e0; try done; intros [= <-]; naive_solver.
Qed.

Lemma entries_raises raw e : entries fos raw = Raise e → e = OverflowError.
Proof.
  unfold entries. destruct (mapR _ raw) as [|e0] eqn:E; [done|]. intros [= <-].
  revert e0 E. induction raw as [|t raw IH]; intros e0; simpl; [done|].
  destruct (parse_tx fos t) as [o|e1] eqn:E1; simpl.
  - destruct (mapR _ raw) as [|e2]; simpl; [done|]. intros [= <-]. by apply IH.
  - intros [= <-]. by eapply parse_tx_raises.
Qed.


Lemma mapR_raises {A B} (f : A → result B) l e (P : exn → Prop) :
  (∀ x e, f x = Raise e → P e) → mapR f l = Raise e → P e.
Proof.
  intros Hf. induction l as [|x l IH]; simpl; [done|].
  destruct (f x) as [y|e0] eqn:E; simpl.
  - destruct (mapR f l) as [|e1]; simpl; [done|]. intros [= <-]. by apply IH.
  - intros [= <-]. by eapply Hf.
Qed.



(** X2: a non-empty input without one valid record raises [KeyError]. *)
Theorem no_valid_record_raises raw :
  raw ≠ [] → entries fos raw = Ok [] → engineer_features fos raw = Raise KeyError.
Proof.
  intros Hraw Hes. unfold engineer_features. destruct raw as [|t raw]; [done|].
  by rewrite scan_entries, Hes.
Qed.

(** X3: a returned table is empty only for the empty input; after
    records were loaded, the test [df_features.empty] of [main] never fires. *)
Theorem table_of_records_not_empty raw df :
  engineer_features fos raw = Ok df → (frame_empty df = true ↔ raw = []).
Proof.
  intros H. split.
  - intros He. destruct (decide (raw = [])) as [|Hraw]; [done|].
    destruct (engineer_features_Ok _ _ _ H Hraw) as (es & fl & _ & _ & Hne & ->).
    unfold frame_empty in He. simpl in He. by destruct fl.
  - intros ->. by injection H as <-.
Qed.
End errors.

(** ** The rows of the table: which wallets, in which order *)

Lemma filter_filter_weaker {A} (P Q : A → Prop) `{∀ x, Decision (P x)}
    `{∀ x, Decision (Q x)} (l : list A) :
  (∀ x, P x → Q x) → filter P (filter Q l) = filter P l.
Proof.
  intros HPQ. induction l as [|x l IH]; [done|].
  rewrite !filter_cons. destruct (decide (Q x)) as [HQ|HQ].
  - rewrite filter_cons. destruct (decide (P x)); by rewrite IH.
  - rewrite decide_False; [done|]. intros ?. by apply HQ, HPQ.
Qed.

Lemma keys_acc_entry st e :
  (wallet_stats (acc_entry st e)).*1 =
  if decide (entry_wallet e ∈ (wallet_stats st).*1) then (wallet_stats st).*1
  else (wallet_stats st).*1 ++ [entry_wallet e].
Proof. unfold acc_entry, accumulate; simpl. apply dict_set_keys. Qed.

Lemma keys_first_seen es : ∀ st,
  (wallet_stats (fold_left acc_entry es st)).*1 =
  (wallet_stats st).*1 ++
    filter (λ w, w ∉ (wallet_stats st).*1) (first_seen (entry_wallet <$> es)).
Proof.
  induction es as [|e es IH]; intros st.
  - simpl. by rewrite filter_nil, app_nil_r.
  - cbn [fold_left]. rewrite IH, keys_acc_entry.
    cbn [fmap list_fmap first_seen]. fold (fmap (M:=list) entry_wallet).
    rewrite filter_cons. destruct (decide (entry_wallet e ∈ (wallet_stats st).*1)) as [Hin|Hin].
    + rewrite decide_False by (intros ?; done). f_equal.
      symmetry. apply filter_filter_weaker. intros x Hx ->. done.
    + rewrite decide_True by done. rewrite <- (assoc_L (++)). f_equal. simpl. f_equal.
      rewrite <- (filter_filter_weaker (λ w, w ∉ (wallet_stats st).*1 ++ [entry_wallet e])
        (λ x, x ≠ entry_wallet e)).
      * rewrite !list_filter_filter. apply list_filter_iff.
        intros x. rewrite elem_of_app, list_elem_of_singleton. naive_solver.
      * intros x Hx ->. apply Hx. rewrite elem_of_app, list_elem_of_singleton. auto.
Qed.

Lemma mapR_feature_row_wallets tss d fl :
  mapR (feature_row tss) d = Ok fl → wallet <$> fl = d.*1.
Proof.
  revert fl. induction d as [|[w s] d IH]; cbn [mapR]; intros fl.
  - by intros [= <-].
  - destruct (feature_row tss (w, s)) as [r|] eqn:Er; cbn [mbind result_bind]; [|done].
    destruct (mapR _ d) as [fl0|]; cbn [mbind result_bind]; [|done]. intros [= <-].
    cbn [fmap list_fmap]. f_equal; [by eapply feature_row_wallet|]. by apply IH.
Qed.

Lemma NoDup_first_seen ws : NoDup (first_seen ws).
Proof.
  induction ws as [|w ws IH]; simpl; [constructor|].
  apply NoDup_cons. split.
  - rewrite list_elem_of_filter. naive_solver.
  - by apply NoDup_filter.
Qed.

Lemma elem_of_first_seen ws w : w ∈ first_seen ws ↔ w ∈ ws.
Proof.
  induction ws as [|x ws IH]; simpl; [done|].
  rewrite !elem_of_cons, list_elem_of_filter, IH.
  destruct (decide (w = x)); naive_solver.
Qed.

Section table.
Variable fos : string → option float.

(** X4: the table has one row per wallet with a valid record, in the
    order of the wallets' first valid records. *)
Theorem rows_in_order_of_first_record raw df es :
  engineer_features fos raw = Ok df → entries fos raw = Ok es →
  wallet <$> rows df = first_seen (entry_wallet <$> es) ∧
  NoDup (wallet <$> rows df) ∧
  ∀ w, w ∈ wallet <$> rows df ↔ ∃ e, e ∈ es ∧ entry_wallet e = w.
Proof.
  intros Hdf Hes.
  assert (wallet <$> rows df = first_seen (entry_wallet <$> es)) as E.
  { destruct (decide (raw = [])) as [->|Hraw].
    { injection Hdf as <-. by injection Hes as <-. }
    destruct (engineer_features_Ok _ _ _ Hdf Hraw) as (es' & fl & Hes' & Hfl & _ & ->).
    rewrite Hes in Hes'. injection Hes' as <-. simpl.
    rewrite (mapR_feature_row_wallets _ _ _ Hfl), keys_first_seen. simpl.
    apply filter_all. intros ? _. apply not_elem_of_nil. }
  rewrite E. split_and!; [done|apply NoDup_first_seen|].
  intros w. rewrite elem_of_first_seen, list_elem_of_fmap. naive_solver.
Qed.
End table.

(** ** Counters and ratios *)

Section rows.
Variable fos : string → option float.

(** X5: [total_tx] and [num_liquidations] are the float counters of the
    wallet's valid records and of its liquidation calls, and
    [liquidation_ratio] is their quotient: the guard [total_tx > 0] holds for
    every row. *)
Theorem counters_of_valid_records raw df es r :
  engineer_features fos raw = Ok df → entries fos raw = Ok es → r ∈ rows df →
  let n := tx_count (wallet r) es in
  let nl := action_count (wallet r) "liquidationcall" es in
  (0 < n)%nat ∧
  total_tx r = count_float n ∧
  num_liquidations r = count_float nl ∧
  liquidation_ratio r = (count_float nl / count_float n)%float.
Proof.
  intros Hdf Hes Hr n nl.
  destruct (engineer_features_row_full _ _ _ _ _ Hdf Hes Hr) as (Hne & Hrow).
  apply row_of_counts_fields in Hrow as (_ & Ht & _ & Hl & Hq & _).
  assert (0 < n)%nat as Hn.
  { unfold n, tx_count. destruct (of_wallet _ es); [done|simpl; lia]. }
  fold n in Ht, Hq. fold nl in Hl, Hq. rewrite (count_float_pos n Hn) in Hq. done.
Qed.

End rows.

(** ** The counters, exactly *)

Section exact_counts.
Local Open Scope Z_scope.

Lemma count_float_value n :
  (0 < n)%nat -> sf_integer (Z.min (Z.of_nat n) (2 ^ 53)) (Prim2SF (count_float n)).
Proof.
  destruct n as [|n]; [lia|]. intros _. induction n as [|n IH].
  - exists 4503599627370496%positive, (-52). split_and!; [by vm_compute|lia..].
  - rewrite count_float_S, add_spec.
    destruct (Z_lt_le_dec (Z.of_nat (S n)) (2 ^ 53)) as [Hlt|Hge].
    + replace (Z.min (Z.of_nat (S (S n))) (2 ^ 53))
        with (Z.min (Z.of_nat (S n)) (2 ^ 53) + 1) by lia.
      apply SFadd_integer; [lia|done].
    + rewrite Z.min_r in IH by lia. rewrite Z.min_r by lia.
      by rewrite SFadd_integer_top.
Qed.

Lemma sf_integer_exponent k m e m' e' :
  2 ^ 52 <= Zpos m < 2 ^ 53 -> 2 ^ 52 <= Zpos m' < 2 ^ 53 ->
  -52 <= e -> e < e' ->
  Zpos m * 2 ^ (e + 52) = k -> Zpos m' * 2 ^ (e' + 52) = k -> False.
Proof.
  intros Bm Bm' He Hlt Hv Hv'.
  assert (2 ^ (e' + 52) = 2 ^ (e + 52) * 2 ^ (e' - e)) as P
    by (rewrite <- Z.pow_add_r by lia; f_equal; lia).
  assert (2 ^ 1 <= 2 ^ (e' - e)) by (apply Z.pow_le_mono_r; lia).
  assert (0 < 2 ^ (e + 52)) by (apply Z.pow_pos_nonneg; lia).
  assert (Zpos m' * 2 ^ (e' - e) = Zpos m) as E.
  { apply Z.mul_reg_r with (2 ^ (e + 52)); [lia|]. rewrite Hv, <- Hv', P. ring. }
  change (2 ^ 1) with 2 in *. nia.
Qed.

Lemma sf_integer_unique k s s' : sf_integer k s -> sf_integer k s' -> s = s'.
Proof.
  intros (m & e & -> & Bm & Be & Hv) (m' & e' & -> & Bm' & Be' & Hv').
  assert (e = e') as <-.
  { destruct (Z.lt_trichotomy e e') as [H|[H|H]]; [exfalso|done|exfalso].
    - exact (sf_integer_exponent (k * 2 ^ 52) m e m' e' Bm Bm' (proj1 Be) H Hv Hv').
    - exact (sf_integer_exponent (k * 2 ^ 52) m' e' m e Bm' Bm (proj1 Be') H Hv' Hv). }
  f_equal. assert (0 < 2 ^ (e + 52)) by (apply Z.pow_pos_nonneg; lia).
  assert (Zpos m = Zpos m') as [= ->]; [|done].
  apply Z.mul_reg_r with (2 ^ (e + 52)); [lia|]. by rewrite Hv.
Qed.

Lemma shl_align_snd mx ex ex' : ex' <= ex -> snd (shl_align mx ex ex') = ex'.
Proof.
  intros H. unfold shl_align. destruct (ex' - ex) eqn:E; cbn [snd]; lia.
Qed.

(** The conversion of an integer up to 2^53 is exact. *)
Lemma binary_normalize_integer k :
  1 <= k <= 2 ^ 53 -> sf_integer k (binary_normalize prec emax k 0 false).
Proof.
  intros Hk. destruct (Z.eq_dec k (2 ^ 53)) as [->|Hne].
  { exists 4503599627370496%positive, 1. split_and!; [by vm_compute|lia..]. }
  destruct k as [|p|p]; [lia| |lia]. cbn [binary_normalize]. unfold binary_round.
  change (Zpos (digits2_pos p)) with (Zdigits2 (Zpos p)).
  set (d := Zdigits2 (Zpos p)).
  pose proof (Zdigits2_bounds (Zpos p) ltac:(lia)) as Bp. fold d in Bp.
  assert (1 <= d <= 53) as Hd.
  { split; [pose proof (Zdigits2_pos (Zpos p)); lia|]. apply Zdigits2_le; lia. }
  assert (fexp prec emax (d + 0) = d - 53) as Hf
    by (unfold fexp, SpecFloat.emin, emax, prec; lia).
  rewrite Hf.
  pose proof (shl_align_value p 0 (d - 53) ltac:(lia)) as V.
  pose proof (shl_align_snd p 0 (d - 53) ltac:(lia)) as S.
  destruct (shl_align p 0 (d - 53)) as [mz ez]. cbn [fst snd] in V, S. subst ez.
  replace (0 - (d - 53)) with (53 - d) in V by lia.
  assert (0 < 2 ^ (53 - d)) by (apply Z.pow_pos_nonneg; lia).
  assert (Zdigits2 (Zpos mz) = 53) as Dz.
  { rewrite V, Zdigits2_mul_pow2 by lia. fold d. lia. }
  pose proof (Zdigits2_bounds (Zpos mz) ltac:(lia)) as Bz. rewrite Dz in Bz.
  replace (Zpos mz) with (Zpos mz * 2 ^ 0) at 1 by lia.
  rewrite binary_round_aux_exact; [|lia|lia| |lia].
  - exists mz, (d - 53 + 0). split_and!; [done|lia..|].
    replace (d - 53 + 0 + 52) with (d - 1) by lia. rewrite V, <- Z.mul_assoc,
      <- Z.pow_add_r by lia. do 2 f_equal. lia.
  - replace (Zpos mz * 2 ^ 0) with (Zpos mz) by lia. rewrite Dz.
    unfold fexp, SpecFloat.emin, emax, prec. lia.
Qed.

(** A counter is the float of the number of increments, up to 2^53, where
    it stays. *)
Lemma count_float_exact n :
  count_float n = float_of_int64 (Z.min (Z.of_nat n) (2 ^ 53)).
Proof.
  destruct n as [|n]; [reflexivity|].
  unfold float_of_int64. rewrite <- (SF2Prim_Prim2SF (count_float (S n))). f_equal.
  eapply sf_integer_unique; [apply count_float_value; lia|].
  apply binary_normalize_integer. lia.
Qed.

End exact_counts.

Section exact.
Variable fos : string → option float.

(** X6: [total_tx] and [num_liquidations] are exactly the float of the
    number of records counted, up to 2^53 records; beyond, the float counter
    stays at 2^53. *)
Theorem counters_are_exact raw df es r :
  engineer_features fos raw = Ok df → entries fos raw = Ok es → r ∈ rows df →
  total_tx r = float_of_int64 (Z.of_nat (tx_count (wallet r) es) `min` 2 ^ 53) ∧
  num_liquidations r =
    float_of_int64 (Z.of_nat (action_count (wallet r) "liquidationcall" es) `min` 2 ^ 53).
Proof.
  intros Hdf Hes Hr.
  destruct (engineer_features_row_full _ _ _ _ _ Hdf Hes Hr) as (_ & Hrow).
  apply row_of_counts_fields in Hrow as (_ & -> & _ & -> & _).
  by rewrite !count_float_exact.
Qed.
End exact.

(** ** The time features *)

Lemma last_cons_default {A} (l : list A) x d d' :
  List.last (x :: l) d = List.last (x :: l) d'.
Proof. revert x. induction l as [|y l IH]; intros x; [done|]. exact (IH y). Qed.

Lemma sorted_last_max (x : Z) l :
  StronglySorted Z.le (x :: l) → ∀ y, y ∈ x :: l → (y ≤ List.last (x :: l) x)%Z.
Proof.
  revert x. induction l as [|z l IH]; intros x S y Hy.
  - apply list_elem_of_singleton in Hy as ->. simpl. lia.
  - apply StronglySorted_cons in S as [Hx S].
    change (List.last (x :: z :: l) x) with (List.last (z :: l) x).
    rewrite (last_cons_default l z x z).
    apply elem_of_cons in Hy as [->|Hy]; [|by apply IH].
    rewrite Forall_forall in Hx.
    assert (z ≤ List.last (z :: l) z)%Z by (apply IH; [done|apply list_elem_of_here]).
    specialize (Hx z ltac:(apply list_elem_of_here)). lia.
Qed.

Lemma last_elem_of {A} (l : list A) x : List.last (x :: l) x ∈ x :: l.
Proof.
  revert x. induction l as [|y l IH]; intros x; [apply list_elem_of_here|].
  change (List.last (x :: y :: l) x) with (List.last (y :: l) x).
  rewrite (last_cons_default l y x y). apply list_elem_of_further, IH.
Qed.

(** The ends of the sorted timestamps are the least and the greatest. *)
Lemma sorted_ends (ts : list Z) t0 t1 l :
  merge_sort Z.le ts = t0 :: t1 :: l →
  t0 ∈ ts ∧ List.last (t0 :: t1 :: l) t0 ∈ ts ∧
  ∀ t, t ∈ ts → (t0 ≤ t ≤ List.last (t0 :: t1 :: l) t0)%Z.
Proof.
  intros E. pose proof (StronglySorted_merge_sort Z.le ts) as S.
  pose proof (merge_sort_Permutation Z.le ts) as P. rewrite E in S, P.
  split_and!.
  - rewrite <- P. apply list_elem_of_here.
  - rewrite <- P. apply last_elem_of.
  - intros t Ht. rewrite <- P in Ht. split; [|by apply sorted_last_max].
    apply StronglySorted_cons in S as [Hx _]. rewrite Forall_forall in Hx.
    apply elem_of_cons in Ht as [->|Ht]; [lia|by apply Hx].
Qed.

Section time.
Variable fos : string → option float.

(** X7: a wallet with one valid record has [total_tx] 1.0 and both time
    features 0. *)
Theorem single_record_wallet raw df es r :
  engineer_features fos raw = Ok df → entries fos raw = Ok es → r ∈ rows df →
  tx_count (wallet r) es = 1%nat →
  total_tx r = 1%float ∧ active_days r = 0%float ∧ avg_time_between_tx_days r = 0%float.
Proof.
  intros Hdf Hes Hr Hn.
  destruct (engineer_features_row_full _ _ _ _ _ Hdf Hes Hr) as (_ & Hrow).
  apply row_of_counts_fields in Hrow as (_ & Ht & _ & _ & _ & Ha & Hd).
  rewrite Hn in Ht, Ha. unfold tx_count in Hn.
  destruct (of_wallet (wallet r) es) as [|e [|e' l]]; try done.
  simpl in Hd. injection Hd as <-. split_and!; [done|done|]. by rewrite Ha.
Qed.

(** X8: with two valid records or more, [active_days] is the quotient by
    86400, correctly rounded, of the span between the least and the greatest
    timestamp of the wallet. *)
Theorem active_days_span raw df es r :
  engineer_features fos raw = Ok df → entries fos raw = Ok es → r ∈ rows df →
  (2 ≤ tx_count (wallet r) es)%nat →
  ∃ lo hi,
    lo ∈ entry_timestamp <$> of_wallet (wallet r) es ∧
    hi ∈ entry_timestamp <$> of_wallet (wallet r) es ∧
    (∀ t, t ∈ entry_timestamp <$> of_wallet (wallet r) es → (lo ≤ t ≤ hi)%Z) ∧
    int_truediv (hi - lo) 86400 = Ok (active_days r).
Proof.
  intros Hdf Hes Hr Hn.
  destruct (engineer_features_row_full _ _ _ _ _ Hdf Hes Hr) as (_ & Hrow).
  apply row_of_counts_fields in Hrow as (_ & _ & _ & _ & _ & _ & Hd).
  set (ts := entry_timestamp <$> of_wallet (wallet r) es) in *.
  assert (2 ≤ length (merge_sort Z.le ts))%nat as Hlen.
  { rewrite merge_sort_Permutation. unfold ts. by rewrite length_fmap. }
  destruct (merge_sort Z.le ts) as [|t0 [|t1 l]] eqn:E; simpl in Hlen; try lia.
  destruct (sorted_ends ts t0 t1 l E) as (H0 & H1 & Hb).
  exists t0, (List.last (t0 :: t1 :: l) t0). done.
Qed.
End time.

(** ** Letter case of the action *)

Lemma lower_ascii_idemp c : lower_ascii (lower_ascii c) = lower_ascii c.
Proof. by destruct c as [[] [] [] [] [] [] [] []]. Qed.

Lemma lower_idemp s : lower (lower s) = lower s.
Proof. induction s as [|c s IH]; simpl; [done|]. by rewrite lower_ascii_idemp, IH. Qed.

Lemma essentials_lower_action t : essentials (lower_action t) = essentials t.
Proof.
  unfold essentials, lower_action; simpl.
  destruct (action t) as [a|]; simpl; [|done]. by rewrite lower_idemp.
Qed.

Section letter_case.
Variable fos : string → option float.

Lemma parse_tx_lower_action t : parse_tx fos (lower_action t) = parse_tx fos t.
Proof. unfold parse_tx. by rewrite essentials_lower_action. Qed.

Lemma scan_lower_action raw : ∀ st,
  scan fos (lower_action <$> raw) st = scan fos raw st.
Proof.
  induction raw as [|t raw IH]; intros st; [done|].
  cbn [fmap list_fmap scan]. unfold step. rewrite parse_tx_lower_action.
  destruct (parse_tx fos t) as [[[[[w a] ts] v]|]|]; simpl; try done; apply IH.
Qed.

Lemma engineer_features_lower_action raw :
  engineer_features fos (lower_action <$> raw) = engineer_features fos raw.
Proof.
  unfold engineer_features. rewrite scan_lower_action. by destruct raw.
Qed.

(** X9: two inputs equal up to the letter case of their actions give the
    same result. *)
Theorem action_case_insensitive raw raw' :
  lower_action <$> raw = lower_action <$> raw' →
  engineer_features fos raw = engineer_features fos raw'.
Proof.
  intros H. rewrite <- (engineer_features_lower_action raw), H.
  apply engineer_features_lower_action.
Qed.
End letter_case.

Section independence.
Variable fos : string → option float.

(** [df.loc[w]] from the valid records of [w] alone. *)
Lemma frame_loc_of_wallet raw df es w :
  engineer_features fos raw = Ok df → entries fos raw = Ok es →
  frame_loc df w =
  match of_wallet w es with
  | [] => None
  | _ =>
      match row_of_counts w (tx_count w es)
              (action_count w "borrow" es) (action_count w "repay" es)
              (action_count w "liquidationcall" es)
              (entry_timestamp <$> of_wallet w es)
              (fold_left usd_step (of_wallet w es) 0%float) with
      | Ok r => Some r
      | Raise _ => None
      end
  end.
Proof.
  intros Hdf Hes. destruct (decide (raw = [])) as [->|Hraw].
  { injection Hdf as <-. by injection Hes as <-. }
  destruct (engineer_features_Ok _ _ _ Hdf Hraw) as (es' & fl & Hes' & Hfl & _ & ->).
  rewrite Hes in Hes'. injection Hes' as <-. unfold frame_loc. simpl.
  rewrite (frame_loc_rows _ _ _ w Hfl).
  destruct (dict_get _ w) as [s|] eqn:G.
  - apply dict_get_Some_elem in G. pose proof (listed_wallet _ _ _ G) as Hne.
    rewrite feature_row_counts by done.
    assert (nums s = fold_left bump_all (of_wallet w es) ∅) as Hn.
    { pose proof (wnums_fold es init_state w) as H. unfold wnums at 1 in H.
      rewrite (dict_get_elem _ _ _ (NoDup_fold es init_state (NoDup_nil_2)) G) in H.
      exact H. }
    rewrite Hn, fold_usd. by destruct (of_wallet w es).
  - destruct (of_wallet w es) as [|e l] eqn:E; [done|].
    destruct (wallet_listed es w) as [s Hs]; [by rewrite E|].
    rewrite (dict_get_elem _ _ _ (NoDup_fold es init_state (NoDup_nil_2)) Hs) in G. done.
Qed.

(** X10: the row of a wallet is decided by its own valid records: two
    runs in which the wallet has the same valid records, in the same order,
    give it the same row. *)
Theorem row_depends_on_own_records raw raw' df df' es es' w :
  engineer_features fos raw = Ok df → entries fos raw = Ok es →
  engineer_features fos raw' = Ok df' → entries fos raw' = Ok es' →
  of_wallet w es = of_wallet w es' →
  frame_loc df w = frame_loc df' w.
Proof.
  intros Hdf Hes Hdf' Hes' E.
  rewrite (frame_loc_of_wallet _ _ _ w Hdf Hes), (frame_loc_of_wallet _ _ _ w Hdf' Hes').
  unfold tx_count, action_count. by rewrite E.
Qed.

(** ** An amount beyond the float range *)

Lemma scan_raises raw st e : scan fos raw st = Raise e → e = OverflowError.
Proof.
  rewrite scan_entries. destruct (entries fos raw) eqn:E; [done|].
  intros [= <-]. by eapply entries_raises.
Qed.

(** X11: an [int] amount beyond the float range aborts the run with
    [OverflowError], which the [except] clause does not name, wherever the
    record stands in the input. *)
Theorem huge_amount_aborts t w a ts ad z l1 l2 :
  essentials t = Some (w, a, ts) →
  actionData t = Some ad → amount ad = Some (PyInt z) →
  float_of_int z = Raise OverflowError →
  engineer_features fos (l1 ++ t :: l2) = Raise OverflowError.
Proof.
  intros He Had Ham Hz.
  assert (parse_tx fos t = Raise OverflowError) as Hp.
  { unfold parse_tx, usd_value. rewrite He, Had, Ham. simpl. by rewrite Hz. }
  assert (scan fos (l1 ++ t :: l2) init_state = Raise OverflowError) as Hs.
  { rewrite scan_app. destruct (scan fos l1 init_state) as [st|e] eqn:E1; simpl.
    - unfold step. by rewrite Hp.
    - f_equal. by eapply scan_raises. }
  unfold engineer_features. rewrite Hs. by destruct l1.
Qed.
End independence.

(** ** Records without effect *)

Section more_rows.
Variable fos : string → option float.

(** X12: a record that lacks the wallet, the action or the timestamp,
    or whose amount or price raises [ValueError], [KeyError] or [TypeError],
    changes nothing when other records remain. *)
Theorem invalid_records_have_no_effect t l1 l2 :
  userWallet t = None ∨ action t = None ∨ timestamp t = None ∨
  (∃ e, usd_value fos t = Raise e ∧ e ∈ [ValueError; KeyError; TypeError]) →
  l1 ++ l2 ≠ [] →
  engineer_features fos (l1 ++ t :: l2) = engineer_features fos (l1 ++ l2).
Proof.
  intros H Hne. apply engineer_features_skip; [|done]. by apply invalid_record_skipped.
Qed.

(** X13: a wallet whose only valid record is a liquidation call has
    [liquidation_ratio] 1.0 and, having no borrow, [repay_borrow_ratio_count]
    1.0. *)
Theorem single_liquidation_wallet raw df es r e :
  engineer_features fos raw = Ok df → entries fos raw = Ok es → r ∈ rows df →
  of_wallet (wallet r) es = [e] → entry_action e = "liquidationcall" →
  num_liquidations r = 1%float ∧ liquidation_ratio r = 1%float ∧
  repay_borrow_ratio_count r = 1%float.
Proof.
  intros Hdf Hes Hr Hw Ha.
  destruct (engineer_features_row_full _ _ _ _ _ Hdf Hes Hr) as (_ & Hrow).
  unfold tx_count, action_count in Hrow. rewrite Hw in Hrow.
  rewrite !filter_cons, !filter_nil, Ha in Hrow. simpl in Hrow.
  unfold row_of_counts in Hrow. simpl in Hrow. by injection Hrow as <-.
Qed.
End more_rows.

(** ** The model input *)

Lemma cleaned_id x : is_finite x = true → fillna (replace_inf x) = x.
Proof.
  unfold is_finite, fillna, replace_inf.
  destruct (is_infinity x); [by rewrite orb_true_r|].
  by destruct (is_nan x).
Qed.

Lemma cleaned_zero x : is_finite x = false → fillna (replace_inf x) = 0%float.
Proof.
  unfold is_finite, fillna, replace_inf.
  destruct (is_infinity x); [done|].
  by destruct (is_nan x).
Qed.

(** X14: the model input has one line per row: the five model columns,
    the finite entries kept and every other entry replaced by 0. *)
Theorem model_input_rows rs :
  length (model_input rs) = length rs ∧
  ∀ i r, rs !! i = Some r →
    model_input rs !! i =
    Some ((λ x, if is_finite x then x else 0%float) <$> MODEL_FEATURE_COLS r).
Proof.
  unfold model_input. split; [by rewrite length_map|].
  intros i r Hi. change (map ?f rs) with (f <$> rs).
  rewrite list_lookup_fmap, Hi. cbn [fmap option_fmap option_map]. f_equal.
  apply map_ext. intros x.
  destruct (is_finite x) eqn:E; [by apply cleaned_id|by apply cleaned_zero].
Qed.

Section scorer_more.
Variable minmax_fit_transform : list (list float) → list (list float).
Variable kmeans_fit_predict : Z → list (list float) → result (list Z).
Variable series_mean : list float → float.

(** X15: on a non-empty table the scorer keeps the rows and adds one
    label and one score per row. *)
Theorem scored_table_shape df df' :
  generate_credit_scores minmax_fit_transform kmeans_fit_predict series_mean df = Ok df' →
  frame_empty df = false →
  rows df' = rows df ∧
  ∃ labels scores,
    kmeans_fit_predict N_CLUSTERS (minmax_fit_transform (model_input (rows df))) = Ok labels ∧
    cluster df' = Some labels ∧ credit_score df' = Some scores ∧
    length labels = length (rows df) ∧ length scores = length (rows df).
Proof.
  intros H He.
  destruct (generate_credit_scores_Ok _ _ _ _ _ H He)
    as (labels & sm & scores & Hk & Hlen & _ & Hs & ->).
  split; [done|]. exists labels, scores. split_and!; try done.
  apply mapR_Ok_length in Hs. congruence.
Qed.

(** X16: the scorer raises only on a non-empty table, and then either
    what the clustering raised or [ValueError]. *)
Theorem scorer_exceptions df e :
  generate_credit_scores minmax_fit_transform kmeans_fit_predict series_mean df = Raise e →
  frame_empty df = false ∧
  (kmeans_fit_predict N_CLUSTERS (minmax_fit_transform (model_input (rows df))) = Raise e ∨
   e = ValueError).
Proof.
  unfold generate_credit_scores. destruct (frame_empty df); [done|]. intros H.
  split; [done|].
  destruct (kmeans_fit_predict _ _) as [labels|e0]; [|left; by injection H as <-].
  right. cbn [mbind result_bind] in H.
  case_bool_decide; [|by injection H].
  unfold score_mapping_of in H.
  destruct (existsb _ _); [by injection H|].
  cbn [mbind result_bind] in H. rewrite scale_250 in H. cbn [mbind result_bind] in H.
  destruct (mapR _ labels) as [|e1] eqn:Hs; [done|].
  cbn [mbind result_bind] in H. injection H as <-.
  eapply (mapR_raises _ _ _ (λ e, e = ValueError)); [|exact Hs].
  intros c e'. unfold score_of. destruct (dict_get _ c); by intros [= <-].
Qed.

(** X17: the scorer returns when the clustering returns one label per
    row and no cluster has a NaN health. *)
Theorem scorer_returns df labels :
  frame_empty df = false →
  kmeans_fit_predict N_CLUSTERS (minmax_fit_transform (model_input (rows df))) = Ok labels →
  length labels = length (rows df) →
  (∀ c, c ∈ labels → is_nan (health series_mean (rows df) labels c) = false) →
  ∃ scores,
    generate_credit_scores minmax_fit_transform kmeans_fit_predict series_mean df =
    Ok {| rows := rows df; cluster := Some labels; credit_score := Some scores |}.
Proof.
  intros He Hk Hlen Hnan. unfold generate_credit_scores. rewrite He, Hk.
  cbn [mbind result_bind]. rewrite bool_decide_true by done.
  destruct (score_mapping_of _) as [sm|e] eqn:Hsm.
  - cbn [mbind result_bind]. rewrite scale_250. cbn [mbind result_bind].
    destruct (score_mapping_Ok _ _ _ _ Hsm) as [_ Hget].
    destruct (mapR_is_Ok (score_of sm 250) labels) as [scores ->]; [|by eexists].
    intros c Hc. unfold score_of. rewrite Hget by done. eauto.
  - exfalso. unfold score_mapping_of in Hsm.
    destruct (existsb _ _) eqn:E; [|done].
    apply existsb_exists in E as (v & Hv & Hn).
    apply list_elem_of_In in Hv. rewrite metric_values in Hv.
    apply list_elem_of_fmap in Hv as (c & -> & Hc).
    apply (proj1 (elem_of_group_keys _ _)) in Hc.
    specialize (Hnan c Hc). congruence.
Qed.
End scorer_more.

(** ** The order of the health values *)

#[local] Instance key_lt_dec a b : Decision (key_lt a b).
Proof. unfold key_lt. apply _. Defined.

Ltac split_compare :=
  repeat match goal with
  | |- context [Z.compare ?a ?b] => destruct (Z.compare_spec a b); subst
  | |- context [Pos.compare_cont Eq ?a ?b] =>
      change (Pos.compare_cont Eq a b) with (Pos.compare a b);
      destruct (Pos.compare_spec a b); subst
  end.

Lemma SFltb_key x y :
  x ≠ S754_nan → y ≠ S754_nan → SFltb x y = true ↔ key_lt (sf_key x) (sf_key y).
Proof.
  unfold SFltb, key_lt.
  destruct x as [[]|[]| |[] mx ex], y as [[]|[]| |[] my ey]; intros Hx Hy;
    try done; simpl; split_compare; simpl; split; (done || lia).
Qed.

Lemma SFeqb_key x y :
  x ≠ S754_nan → y ≠ S754_nan → SFeqb x y = true ↔ sf_key x = sf_key y.
Proof.
  unfold SFeqb.
  destruct x as [[]|[]| |[] mx ex], y as [[]|[]| |[] my ey]; intros Hx Hy;
    try done; simpl; split_compare; simpl; split; try done; intros [= ?]; lia.
Qed.

Lemma ltb_key (x y : float) :
  is_nan x = false → is_nan y = false →
  (x <? y)%float = true ↔ key_lt (float_key x) (float_key y).
Proof.
  intros Hx%is_nan_spec Hy%is_nan_spec. rewrite FloatAxioms.ltb_spec.
  by apply SFltb_key.
Qed.

Lemma eqb_key (x y : float) :
  is_nan x = false → is_nan y = false →
  (x =? y)%float = true ↔ float_key x = float_key y.
Proof.
  intros Hx%is_nan_spec Hy%is_nan_spec. rewrite FloatAxioms.eqb_spec.
  by apply SFeqb_key.
Qed.

(** The distinct values of a list without NaN, counted by their keys. *)
Lemma distinct_size (l : list float) :
  (∀ x, x ∈ l → is_nan x = false) →
  length (distinct l) = size (list_to_set (float_key <$> l) : gset (Z * Z * Z)).
Proof.
  induction l as [|x l IH]; intros Hn; [done|].
  assert (∀ y, y ∈ l → is_nan y = false) as Hl
    by (intros; apply Hn; by apply list_elem_of_further).
  assert (is_nan x = false) as Hx by apply Hn, list_elem_of_here.
  cbn [distinct fmap list_fmap list_to_set]. fold (fmap (M:=list) float_key).
  destruct (existsb _ l) eqn:E.
  - apply existsb_exists in E as (y & Hy%list_elem_of_In & Heq).
    apply eqb_key in Heq; [|by apply Hl|done]. rewrite IH by done. f_equal.
    assert (float_key x ∈ (list_to_set (float_key <$> l) : gset (Z * Z * Z))).
    { rewrite <- Heq. apply elem_of_list_to_set, list_elem_of_fmap. eauto. }
    set_solver.
  - rewrite size_union, size_singleton; [simpl; by rewrite IH|].
    apply disjoint_singleton_l. intros Hin.
    apply elem_of_list_to_set, list_elem_of_fmap in Hin as (y & Heq & Hy).
    apply not_true_iff_false in E. apply E, existsb_exists.
    exists y. split; [by apply list_elem_of_In|]. apply eqb_key; [by apply Hl|done|done].
Qed.

Lemma dense_rank_size (vals : list float) v :
  (∀ x, x ∈ vals → is_nan x = false) → is_nan v = false →
  dense_rank vals v =
  (Z.of_nat (size (filter (λ k, key_lt k (float_key v))
               (list_to_set (float_key <$> vals) : gset (Z * Z * Z)))) + 1)%Z.
Proof.
  intros Hn Hv. unfold dense_rank. rewrite distinct_size.
  - do 3 f_equal. apply set_eq. intros k.
    rewrite elem_of_filter, !elem_of_list_to_set, !list_elem_of_fmap. split.
    + intros (y & -> & [Hlt Hy]%list_elem_of_filter). split; [|eauto].
      apply ltb_key; auto.
    + intros (Hlt & y & -> & Hy). exists y. split; [done|].
      apply list_elem_of_filter. split; [|done]. apply ltb_key; auto.
  - intros x [_ Hx]%list_elem_of_filter. auto.
Qed.

Lemma dense_rank_mono (vals : list float) a b :
  (∀ x, x ∈ vals → is_nan x = false) → a ∈ vals → b ∈ vals →
  ((a <? b)%float = true → (dense_rank vals a < dense_rank vals b)%Z) ∧
  ((a =? b)%float = true → dense_rank vals a = dense_rank vals b).
Proof.
  intros Hn Ha Hb. rewrite !dense_rank_size by auto. split.
  - intros Hlt%ltb_key; auto.
    enough (size (filter (λ k, key_lt k (float_key a))
              (list_to_set (float_key <$> vals) : gset (Z * Z * Z)))
            < size (filter (λ k, key_lt k (float_key b))
              (list_to_set (float_key <$> vals) : gset (Z * Z * Z))))%nat by lia.
    apply subset_size. apply strict_spec_alt. split.
    + intros k. rewrite !elem_of_filter. intros [Hk ?]. split; [|done].
      unfold key_lt in *. lia.
    + intros Heq.
      assert (float_key a ∈ filter (λ k, key_lt k (float_key b))
                (list_to_set (float_key <$> vals) : gset (Z * Z * Z))) as Hin.
      { apply elem_of_filter. split; [done|].
        apply elem_of_list_to_set, list_elem_of_fmap. eauto. }
      rewrite <- Heq in Hin. apply elem_of_filter in Hin as [Hk _].
      unfold key_lt in Hk. lia.
  - intros Heq%eqb_key; auto. by rewrite Heq.
Qed.

Section monotone.
Variable minmax_fit_transform : list (list float) → list (list float).
Variable kmeans_fit_predict : Z → list (list float) → result (list Z).
Variable series_mean : list float → float.

(** X18: scores follow health: a cluster of strictly lower health
    scores at least 250 less, and clusters of equal health score the same. *)
Theorem scores_follow_health df df' labels scores i j ri rj ci cj si sj :
  (∀ X labels, kmeans_fit_predict N_CLUSTERS X = Ok labels →
     Forall (λ c, 0 ≤ c < N_CLUSTERS)%Z labels) →
  generate_credit_scores minmax_fit_transform kmeans_fit_predict series_mean df = Ok df' →
  cluster df' = Some labels → credit_score df' = Some scores →
  rows df' !! i = Some ri → rows df' !! j = Some rj →
  labels !! i = Some ci → labels !! j = Some cj →
  scores !! i = Some si → scores !! j = Some sj →
  let h := health series_mean (rows df) labels in
  ((h ci <? h cj)%float = true → (si + 250 ≤ sj)%Z) ∧
  ((h ci =? h cj)%float = true → si = sj).
Proof.
  intros Hrange H Hl Hs Hi Hj Hci Hcj Hsi Hsj h.
  destruct (score_formula _ _ _ _ _ _ _ _ _ _ Hrange H Hl Hs Hi Hci) as (_ & Hnan & _ & Hfi).
  destruct (score_formula _ _ _ _ _ _ _ _ _ _ Hrange H Hl Hs Hj Hcj) as (_ & _ & _ & Hfj).
  rewrite Hsi in Hfi. rewrite Hsj in Hfj. injection Hfi as ->. injection Hfj as ->.
  rewrite metric_values. fold h.
  assert (ci ∈ labels) as Hini by (by eapply list_elem_of_lookup_2).
  assert (cj ∈ labels) as Hinj by (by eapply list_elem_of_lookup_2).
  destruct (dense_rank_mono (h <$> group_keys labels) (h ci) (h cj)) as [M1 M2].
  - intros x (c & -> & Hc)%list_elem_of_fmap. apply Hnan. by apply elem_of_group_keys.
  - apply list_elem_of_fmap. exists ci. split; [done|]. by apply elem_of_group_keys.
  - apply list_elem_of_fmap. exists cj. split; [done|]. by apply elem_of_group_keys.
  - split; intros Hc; [specialize (M1 Hc); lia|by rewrite (M2 Hc)].
Qed.
End monotone.

(** ** The least health *)

Lemma key_lt_trans a b c : key_lt a b → key_lt b c → key_lt a c.
Proof. unfold key_lt. lia. Qed.

Lemma least_key_exists (l : list (Z * Z * Z)) :
  l ≠ [] → ∃ k, k ∈ l ∧ ∀ k', k' ∈ l → ¬ key_lt k' k.
Proof.
  induction l as [|x l IH]; [done|]. intros _.
  destruct l as [|y l].
  { exists x. split; [apply list_elem_of_here|].
    intros k' ->%list_elem_of_singleton. unfold key_lt. lia. }
  destruct IH as (m & Hm & Hmin); [done|].
  destruct (decide (key_lt x m)) as [Hx|Hx].
  - exists x. split; [apply list_elem_of_here|].
    intros k' [->|Hk]%elem_of_cons; [unfold key_lt; lia|].
    intros Hlt. apply (Hmin k' Hk). by eapply key_lt_trans.
  - exists m. split; [by apply list_elem_of_further|].
    intros k' [->|Hk]%elem_of_cons; [done|by apply Hmin].
Qed.

Section least.
Variable minmax_fit_transform : list (list float) → list (list float).
Variable kmeans_fit_predict : Z → list (list float) → result (list Z).
Variable series_mean : list float → float.

(** X19: in every scored non-empty table some wallet has score 0. *)
Theorem some_wallet_scores_0 df df' scores :
  (∀ X labels, kmeans_fit_predict N_CLUSTERS X = Ok labels →
     Forall (λ c, 0 ≤ c < N_CLUSTERS)%Z labels) →
  generate_credit_scores minmax_fit_transform kmeans_fit_predict series_mean df = Ok df' →
  frame_empty df = false →
  credit_score df' = Some scores →
  ∃ i r, rows df' !! i = Some r ∧ scores !! i = Some 0%Z.
Proof.
  intros Hrange H He Hs.
  destruct (generate_credit_scores_Ok _ _ _ _ _ H He)
    as (labels & sm & scores' & Hk & Hlen & _ & _ & Hdf').
  assert (rows df' = rows df) as Hr by (by rewrite Hdf').
  assert (cluster df' = Some labels) as Hl by (by rewrite Hdf').
  assert (scores' = scores) as -> by (rewrite Hdf' in Hs; by injection Hs).
  set (h := health series_mean (rows df) labels).
  assert (labels ≠ []) as Hne.
  { intros ->. unfold frame_empty in He. by destruct (rows df). }
  destruct (least_key_exists ((λ c, float_key (h c)) <$> labels)) as (k & Hk' & Hmin).
  { by destruct labels. }
  apply list_elem_of_fmap in Hk' as (c & -> & Hc).
  apply list_elem_of_lookup in Hc as [i Hi].
  destruct (lookup_lt_is_Some_2 (rows df') i) as [r Hri].
  { rewrite Hr, <- Hlen. by eapply lookup_lt_Some. }
  exists i, r. split; [done|].
  destruct (score_formula _ _ _ _ _ _ _ _ _ _ Hrange H Hl Hs Hri Hi) as (_ & Hnan & _ & ->).
  rewrite dense_rank_lowest; [done|].
  intros y. rewrite metric_values. intros (c' & -> & Hc')%list_elem_of_fmap.
  apply (proj1 (elem_of_group_keys _ _)) in Hc'.
  apply not_true_iff_false. intros Hlt.
  apply ltb_key in Hlt; [|by apply Hnan|apply Hnan; by eapply list_elem_of_lookup_2].
  apply (Hmin (float_key (h c'))); [|done].
  apply list_elem_of_fmap. by exists c'.
Qed.
End least.

(** ** Facts on [main] *)

Section main_facts.
Variable fos : string → option float.
Variable minmax_fit_transform : list (list float) → list (list float).
Variable kmeans_fit_predict : Z → list (list float) → result (list Z).
Variable series_mean : list float → float.

Lemma main_Ok f o :
  main fos minmax_fit_transform kmeans_fit_predict series_mean f = Ok o →
  (load_transaction_data f = [] ∧ o = Exited) ∨
  ∃ df df' scores,
    load_transaction_data f ≠ [] ∧
    engineer_features fos (load_transaction_data f) = Ok df ∧
    generate_credit_scores minmax_fit_transform kmeans_fit_predict series_mean df = Ok df' ∧
    credit_score df' = Some scores ∧ length scores = length (rows df) ∧
    o = Saved (zip_with report (rows df) scores).
Proof.
  unfold main. destruct (load_transaction_data f) as [|t raw] eqn:El.
  { intros [= <-]. by left. }
  intros H. right.
  destruct (engineer_features fos (t :: raw)) as [df|] eqn:Hdf; [|done].
  cbn [mbind result_bind] in H.
  destruct (frame_empty df) eqn:He.
  { destruct (engineer_features_Ok _ _ _ Hdf) as (es & fl & _ & _ & Hne & ->); [done|].
    unfold frame_empty in He. cbn [rows] in He. by destruct fl. }
  destruct (generate_credit_scores _ _ _ df) as [df'|] eqn:Hs; [|done].
  cbn [mbind result_bind] in H.
  destruct (generate_credit_scores_Ok _ _ _ _ _ Hs He)
    as (labels & sm & scores & _ & Hlen & _ & Hms & ->).
  unfold select_output_cols in H. cbn [credit_score rows] in H. injection H as <-.
  exists df, {| rows := rows df; cluster := Some labels; credit_score := Some scores |},
    scores.
  split_and!; try done. apply mapR_Ok_length in Hms. congruence.
Qed.

(** X20: [main] takes one of its early [return]s exactly when nothing
    was loaded: no file, no JSON, or an empty list. *)
Theorem main_exits_early f :
  main fos minmax_fit_transform kmeans_fit_predict series_mean f = Ok Exited ↔
  load_transaction_data f = [].
Proof.
  split.
  - intros [[? _]|(? & ? & ? & _ & _ & _ & _ & _ & [=])]%main_Ok. done.
  - unfold main. by intros ->.
Qed.

(** X21: when [main] returns on a non-empty input it hands [to_csv]
    one line per wallet of the feature table, in its order, with the five
    features and the score of that wallet. *)
Theorem main_saves_every_wallet f o :
  main fos minmax_fit_transform kmeans_fit_predict series_mean f = Ok o →
  load_transaction_data f ≠ [] →
  ∃ df df' scores table,
    engineer_features fos (load_transaction_data f) = Ok df ∧
    generate_credit_scores minmax_fit_transform kmeans_fit_predict series_mean df = Ok df' ∧
    credit_score df' = Some scores ∧
    o = Saved table ∧
    length table = length (rows df) ∧
    report_wallet <$> table = wallet <$> rows df ∧
    ∀ i line, table !! i = Some line →
      ∃ r, rows df !! i = Some r ∧
        scores !! i = Some (report_credit_score line) ∧
        report_total_tx line = total_tx r ∧
        report_total_usd_all_actions line = total_usd_all_actions r ∧
        report_repay_borrow_ratio_count line = repay_borrow_ratio_count r ∧
        report_num_liquidations line = num_liquidations r ∧
        report_active_days line = active_days r.
Proof.
  intros [[? _]|(df & df' & scores & _ & Hdf & Hs & Hc & Hlen & ->)]%main_Ok Hne; [done|].
  exists df, df', scores, (zip_with report (rows df) scores). split_and!; try done.
  - rewrite length_zip_with. lia.
  - clear -Hlen. revert scores Hlen. induction (rows df) as [|r rs IH]; intros [|s scores] Hlen;
      try done. simpl in *. f_equal. apply IH. lia.
  - intros i line Hi. apply lookup_zip_with_Some in Hi as (r & s & -> & Hr & Hsc).
    exists r. done.
Qed.

End main_facts.

(** ** The scenario of the specification *)

(** C1: on the three-record scenario the code drops the deposit at timestamp
    0 and reports two transactions over a span of 1000 seconds, where the
    specification expects three over 2000. *)
Theorem scenario_drops_first_record :
  engineer_features float_of_digits scenario =
  Ok {| rows :=
          [ {| wallet := "W1";
               total_tx := 2;
               total_usd_all_actions := 100;
               repay_borrow_ratio_count := 1;
               num_liquidations := 0;
               liquidation_ratio := 0;
               active_days := 1000 / 86400;
               avg_time_between_tx_days := 1000 / 86400 / 2 |} ];
        cluster := None; credit_score := None |}.
Proof. by vm_compute. Qed.

Lemma scenario_one_second_later :
  engineer_features float_of_digits scenario_shifted =
  Ok {| rows :=
          [ {| wallet := "W1";
               total_tx := 3;
               total_usd_all_actions := 200;
               repay_borrow_ratio_count := 1;
               num_liquidations := 0;
               liquidation_ratio := 0;
               active_days := 2000 / 86400;
               avg_time_between_tx_days := 2000 / 86400 / 3 |} ];
        cluster := None; credit_score := None |}.
Proof. by vm_compute. Qed.

(** C6: the record without timestamp is skipped by the loop, yet a run whose
    records are all skipped does not return: [set_index] raises [KeyError]. *)
Theorem only_invalid_records_raise fos :
  parse_tx fos no_timestamp = Ok None ∧
  engineer_features fos [no_timestamp] = Raise KeyError.
Proof. done. Qed.

Lemma modulo_clusters_range X labels :
  modulo_clusters N_CLUSTERS X = Ok labels →
  Forall (λ c, 0 ≤ c < N_CLUSTERS)%Z labels.
Proof.
  unfold modulo_clusters. case_bool_decide; [done|]. intros [= <-].
  apply Forall_forall. intros c Hc. apply list_elem_of_lookup in Hc as [i Hi].
  rewrite list_lookup_imap in Hi. destruct (X !! i); [|done].
  injection Hi as <-. by apply Z.mod_pos_bound.
Qed.

Lemma elem_of_five (c : Z) :
  c ∈ [0; 1; 2; 3; 4]%Z → (c = 0 ∨ c = 1 ∨ c = 2 ∨ c = 3 ∨ c = 4)%Z.
Proof. set_unfold. naive_solver. Qed.


Lemma negative_total :
  engineer_features float_of_digits negative_amount = Ok (features_of negative_amount) ∧
  total_usd_all_actions <$> frame_loc (features_of negative_amount) "W" = Some (-5)%float ∧
  ¬ features_finite_nonneg (features_of negative_amount).
Proof.
  split_and!; [by vm_compute|by vm_compute|].
  intros H.
  destruct (frame_loc (features_of negative_amount) "W") as [r|] eqn:E; [|by vm_compute in E].
  assert (r ∈ rows (features_of negative_amount)) as Hr.
  { vm_compute in E. injection E as <-. vm_compute. apply list_elem_of_here. }
  specialize (H r Hr). vm_compute in E. injection E as <-.
  apply Forall_cons in H as [_ H]. apply Forall_cons in H as [H _].
  vm_compute in H. done.
Qed.

(** One record of 1 USD whose action is ['ALL_ACTIONS']: the total is 2. *)
Lemma all_actions_counted_twice :
  total_usd_all_actions <$> frame_loc (features_of all_actions_record) "W"
  = Some 2%float.
Proof. by vm_compute. Qed.

Lemma tied_clusters_all_score_0 :
  generate_credit_scores (λ X, X) modulo_clusters plain_mean (features_of five_depositors)
    = Ok (scored five_depositors) ∧
  cluster (scored five_depositors) = Some [0; 1; 2; 3; 4]%Z ∧
  credit_score (scored five_depositors) = Some [0; 0; 0; 0; 0]%Z ∧
  ¬ extremes_0_1000
      (health plain_mean (rows (features_of five_depositors)) [0; 1; 2; 3; 4]%Z)
      [0; 1; 2; 3; 4]%Z [0; 0; 0; 0; 0]%Z.
Proof.
  split_and!; [by vm_compute|by vm_compute|by vm_compute|].
  intros H. destruct (H 0%nat 0%Z eq_refl) as [_ H1].
  enough (Some 0%Z = Some 1000%Z) by done. apply H1.
  intros c' Hc'. apply elem_of_five in Hc'.
  destruct Hc' as [->|[->|[->|[->| ->]]]]; by vm_compute.
Qed.

(** ** The theorems at concrete inputs *)

Lemma repay_borrow_ratio_witness :
  let r := {| wallet := "D"; total_tx := 3; total_usd_all_actions := 12;
              repay_borrow_ratio_count := 0.5; num_liquidations := 0;
              liquidation_ratio := 0;
              active_days := 2 / 86400;
              avg_time_between_tx_days := 2 / 86400 / 3 |}%float in
  let es := get_ok [] (entries float_of_digits mixed_wallets) in
  r ∈ rows (features_of mixed_wallets) ∧
  action_count "D" "borrow" es = 2%nat ∧
  repay_borrow_ratio_count r = (count_float 1 / count_float 2)%float.
Proof.
  intros r es.
  assert (r ∈ rows (features_of mixed_wallets)) as Hr.
  { apply list_elem_of_lookup. exists 3%nat. by vm_compute. }
  split_and!; [done|by vm_compute|].
  refine (proj2 (repay_borrow_ratio float_of_digits mixed_wallets
            (features_of mixed_wallets) es r _ _ Hr) _);
    [by vm_compute|by vm_compute|vm_compute; lia].
Defined.


Lemma feature_signs_witness :
  let r := {| wallet := "B"; total_tx := 2; total_usd_all_actions := 4;
              repay_borrow_ratio_count := 0; num_liquidations := 1;
              liquidation_ratio := 0.5; active_days := 10 / 86400;
              avg_time_between_tx_days := 10 / 86400 / 2 |}%float in
  r ∈ rows (features_of mixed_wallets) ∧
  (0 <? total_tx r)%float = true ∧
  Forall (λ x, finite_nonneg x = true)
    [ total_tx r; repay_borrow_ratio_count r; num_liquidations r;
      liquidation_ratio r; active_days r; avg_time_between_tx_days r ] ∧
  (∃ es, entries float_of_digits mixed_wallets = Ok es ∧
     total_usd_all_actions r = fold_left usd_step (of_wallet (wallet r) es) 0%float) ∧
  Forall (Forall (λ x, is_finite x = true))
    (model_input (rows (features_of mixed_wallets))).
Proof.
  intros r.
  assert (r ∈ rows (features_of mixed_wallets)) as Hr
    by (apply list_elem_of_lookup; exists 1%nat; by vm_compute).
  assert (engineer_features float_of_digits mixed_wallets
          = Ok (features_of mixed_wallets)) as Hdf by (by vm_compute).
  split; [exact Hr|].
  exact (feature_signs float_of_digits mixed_wallets (features_of mixed_wallets) r Hdf Hr).
Defined.

Lemma falsy_fields_dropped_witness :
  timestamp (mk_tx "W1" "deposit" 0 (PyStr "100000000")) = Some 0%Z ∧
  ∀ st, step float_of_digits st (mk_tx "W1" "deposit" 0 (PyStr "100000000")) = Ok st.
Proof.
  split; [reflexivity|].
  refine (proj1 (falsy_fields_dropped float_of_digits
                   (mk_tx "W1" "deposit" 0 (PyStr "100000000")) _)).
  left. reflexivity.
Defined.

Lemma empty_input_witness :
  frame_empty empty_frame = true ∧
  engineer_features float_of_digits [] = Ok empty_frame ∧
  generate_credit_scores (λ X, X) modulo_clusters plain_mean empty_frame = Ok empty_frame.
Proof.
  split; [reflexivity|].
  apply (empty_input (λ X, X) modulo_clusters plain_mean float_of_digits empty_frame).
  reflexivity.
Defined.

Lemma same_cluster_same_score_witness :
  cluster (scored mixed_wallets) = Some [0; 1; 2; 3; 4; 0]%Z ∧
  credit_score (scored mixed_wallets) = Some [500; 0; 500; 250; 0; 500]%Z ∧
  ∃ v, [500; 0; 500; 250; 0; 500]%Z !! 0%nat = Some v ∧
       [500; 0; 500; 250; 0; 500]%Z !! 5%nat = Some v.
Proof.
  assert (generate_credit_scores (λ X, X) modulo_clusters plain_mean
            (features_of mixed_wallets) = Ok (scored mixed_wallets)) as H
    by (by vm_compute).
  assert (cluster (scored mixed_wallets) = Some [0; 1; 2; 3; 4; 0]%Z) as Hl
    by (by vm_compute).
  assert (credit_score (scored mixed_wallets) = Some [500; 0; 500; 250; 0; 500]%Z) as Hs
    by (by vm_compute).
  split_and!; [exact Hl|exact Hs|].
  destruct (rows (scored mixed_wallets) !! 0%nat) as [ra|] eqn:Ea; [|by vm_compute in Ea].
  destruct (rows (scored mixed_wallets) !! 5%nat) as [rb|] eqn:Eb; [|by vm_compute in Eb].
  exact (same_cluster_same_score (λ X, X) modulo_clusters plain_mean
           (features_of mixed_wallets) (scored mixed_wallets)
           [0; 1; 2; 3; 4; 0]%Z [500; 0; 500; 250; 0; 500]%Z 0 5 ra rb 0%Z
           H Hl Hs Ea Eb eq_refl eq_refl).
Defined.

Lemma score_range_witness :
  credit_score (scored mixed_wallets) = Some [500; 0; 500; 250; 0; 500]%Z ∧
  250%Z ∈ [0; 250; 500; 750; 1000]%Z ∧ (0 ≤ 250 ≤ 1000)%Z.
Proof.
  assert (generate_credit_scores (λ X, X) modulo_clusters plain_mean
            (features_of mixed_wallets) = Ok (scored mixed_wallets)) as H
    by (by vm_compute).
  assert (credit_score (scored mixed_wallets) = Some [500; 0; 500; 250; 0; 500]%Z) as Hs
    by (by vm_compute).
  split; [exact Hs|].
  destruct (rows (scored mixed_wallets) !! 3%nat) as [r|] eqn:E; [|by vm_compute in E].
  exact (score_range (λ X, X) modulo_clusters plain_mean
           (features_of mixed_wallets) (scored mixed_wallets)
           [500; 0; 500; 250; 0; 500]%Z 3 r 250%Z
           modulo_clusters_range H Hs E eq_refl).
Defined.

Lemma rank_scores_witness :
  cluster (scored ranked_wallets) = Some [0; 1; 2; 3; 4]%Z ∧
  credit_score (scored ranked_wallets) = Some [750; 250; 500; 0; 1000]%Z ∧
  [750; 250; 500; 0; 1000]%Z !! 3%nat = Some 0%Z ∧
  [750; 250; 500; 0; 1000]%Z !! 4%nat = Some 1000%Z.
Proof.
  assert (generate_credit_scores (λ X, X) modulo_clusters plain_mean
            (features_of ranked_wallets) = Ok (scored ranked_wallets)) as H
    by (by vm_compute).
  assert (cluster (scored ranked_wallets) = Some [0; 1; 2; 3; 4]%Z) as Hl
    by (by vm_compute).
  assert (credit_score (scored ranked_wallets) = Some [750; 250; 500; 0; 1000]%Z) as Hs
    by (by vm_compute).
  split_and!; [exact Hl|exact Hs| |].
  - destruct (rows (scored ranked_wallets) !! 3%nat) as [r|] eqn:E; [|by vm_compute in E].
    pose proof (rank_scores (λ X, X) modulo_clusters plain_mean
             (features_of ranked_wallets) (scored ranked_wallets)
             [0; 1; 2; 3; 4]%Z [750; 250; 500; 0; 1000]%Z 3 r 3%Z
             modulo_clusters_range H Hl Hs E eq_refl) as (_ & T & _).
    apply T.
    intros c' Hc'. apply elem_of_five in Hc'.
    destruct Hc' as [->|[->|[->|[->| ->]]]]; by vm_compute.
  - destruct (rows (scored ranked_wallets) !! 4%nat) as [r|] eqn:E; [|by vm_compute in E].
    pose proof (rank_scores (λ X, X) modulo_clusters plain_mean
             (features_of ranked_wallets) (scored ranked_wallets)
             [0; 1; 2; 3; 4]%Z [750; 250; 500; 0; 1000]%Z 4 r 4%Z
             modulo_clusters_range H Hl Hs E eq_refl) as (_ & _ & T).
    apply T.
    + intros k Hk. unfold N_CLUSTERS in Hk.
      assert (k = 0 ∨ k = 1 ∨ k = 2 ∨ k = 3 ∨ k = 4)%Z as Hc by lia.
      destruct Hc as [->|[->|[->|[->| ->]]]]; apply list_elem_of_In; simpl; tauto.
    + clear. intros a b Ha Hb Hab. apply elem_of_five in Ha, Hb.
      destruct Ha as [->|[->|[->|[->| ->]]]];
        destruct Hb as [->|[->|[->|[->| ->]]]];
        first [by destruct Hab | by vm_compute].
    + intros c' Hc'. apply elem_of_five in Hc'.
      destruct Hc' as [->|[->|[->|[->| ->]]]]; by vm_compute.
Defined.

(** ** The further properties at concrete inputs *)

Lemma entries_of_Ok raw :
  (if entries float_of_digits raw is Ok _ then true else false) = true →
  entries float_of_digits raw = Ok (entries_of raw).
Proof. unfold entries_of. by destruct (entries float_of_digits raw). Qed.

Lemma features_of_Ok raw :
  (if engineer_features float_of_digits raw is Ok _ then true else false) = true →
  engineer_features float_of_digits raw = Ok (features_of raw).
Proof. unfold features_of. by destruct (engineer_features float_of_digits raw). Qed.

Lemma row_at_elem df i :
  (i <? length (rows df))%nat = true → rows df !! i = Some (row_at df i).
Proof.
  intros H%Nat.ltb_lt. unfold row_at.
  by destruct (lookup_lt_is_Some_2 (rows df) i H) as [r ->].
Qed.


Lemma no_valid_record_raises_witness :
  [no_timestamp] ≠ [] ∧ entries float_of_digits [no_timestamp] = Ok [] ∧
  engineer_features float_of_digits [no_timestamp] = Raise KeyError.
Proof.
  assert ([no_timestamp] ≠ []) as H1 by discriminate.
  assert (entries float_of_digits [no_timestamp] = Ok []) as H2 by reflexivity.
  split_and!; [exact H1|exact H2|].
  exact (no_valid_record_raises float_of_digits [no_timestamp] H1 H2).
Defined.

Lemma table_of_records_not_empty_witness :
  engineer_features float_of_digits mixed_wallets = Ok (features_of mixed_wallets) ∧
  (frame_empty (features_of mixed_wallets) = true ↔ mixed_wallets = []).
Proof.
  assert (engineer_features float_of_digits mixed_wallets = Ok (features_of mixed_wallets))
    as H by (apply features_of_Ok; by vm_compute).
  split; [exact H|].
  exact (table_of_records_not_empty float_of_digits mixed_wallets _ H).
Defined.

Lemma rows_in_order_of_first_record_witness :
  engineer_features float_of_digits mixed_wallets = Ok (features_of mixed_wallets) ∧
  wallet <$> rows (features_of mixed_wallets) = ["A"; "B"; "C"; "D"; "E"; "F"].
Proof.
  assert (engineer_features float_of_digits mixed_wallets = Ok (features_of mixed_wallets))
    as H by (apply features_of_Ok; by vm_compute).
  assert (entries float_of_digits mixed_wallets = Ok (entries_of mixed_wallets))
    as He by (apply entries_of_Ok; by vm_compute).
  split; [exact H|].
  pose proof (rows_in_order_of_first_record float_of_digits mixed_wallets _ _ H He)
    as [E _].
  rewrite E. by vm_compute.
Defined.

Lemma counters_of_valid_records_witness :
  row_at (features_of mixed_wallets) 1 ∈ rows (features_of mixed_wallets) ∧
  total_tx (row_at (features_of mixed_wallets) 1) = count_float 2 ∧
  num_liquidations (row_at (features_of mixed_wallets) 1) = count_float 1.
Proof.
  assert (engineer_features float_of_digits mixed_wallets = Ok (features_of mixed_wallets))
    as H by (apply features_of_Ok; by vm_compute).
  assert (entries float_of_digits mixed_wallets = Ok (entries_of mixed_wallets))
    as He by (apply entries_of_Ok; by vm_compute).
  assert (row_at (features_of mixed_wallets) 1 ∈ rows (features_of mixed_wallets)) as Hr.
  { eapply list_elem_of_lookup_2. apply row_at_elem. by vm_compute. }
  split; [exact Hr|].
  pose proof (counters_of_valid_records float_of_digits mixed_wallets _ _ _ H He Hr)
    as (_ & T & L & _).
  split; [rewrite T|rewrite L]; by vm_compute.
Defined.

Lemma single_record_wallet_witness :
  tx_count "C" (entries_of mixed_wallets) = 1%nat ∧
  active_days (row_at (features_of mixed_wallets) 2) = 0%float ∧
  avg_time_between_tx_days (row_at (features_of mixed_wallets) 2) = 0%float.
Proof.
  assert (engineer_features float_of_digits mixed_wallets = Ok (features_of mixed_wallets))
    as H by (apply features_of_Ok; by vm_compute).
  assert (entries float_of_digits mixed_wallets = Ok (entries_of mixed_wallets))
    as He by (apply entries_of_Ok; by vm_compute).
  assert (row_at (features_of mixed_wallets) 2 ∈ rows (features_of mixed_wallets)) as Hr.
  { eapply list_elem_of_lookup_2. apply row_at_elem. by vm_compute. }
  assert (tx_count (wallet (row_at (features_of mixed_wallets) 2))
            (entries_of mixed_wallets) = 1%nat) as Hn by (by vm_compute).
  split; [by vm_compute|].
  exact (proj2 (single_record_wallet float_of_digits mixed_wallets _ _ _ H He Hr Hn)).
Defined.

Lemma active_days_span_witness :
  (2 ≤ tx_count "A" (entries_of mixed_wallets))%nat ∧
  ∃ lo hi,
    lo ∈ entry_timestamp <$> of_wallet "A" (entries_of mixed_wallets) ∧
    hi ∈ entry_timestamp <$> of_wallet "A" (entries_of mixed_wallets) ∧
    (∀ t, t ∈ entry_timestamp <$> of_wallet "A" (entries_of mixed_wallets) →
          (lo ≤ t ≤ hi)%Z) ∧
    int_truediv (hi - lo) 86400 = Ok (active_days (row_at (features_of mixed_wallets) 0)).
Proof.
  assert (engineer_features float_of_digits mixed_wallets = Ok (features_of mixed_wallets))
    as H by (apply features_of_Ok; by vm_compute).
  assert (entries float_of_digits mixed_wallets = Ok (entries_of mixed_wallets))
    as He by (apply entries_of_Ok; by vm_compute).
  assert (row_at (features_of mixed_wallets) 0 ∈ rows (features_of mixed_wallets)) as Hr.
  { eapply list_elem_of_lookup_2. apply row_at_elem. by vm_compute. }
  assert (2 ≤ tx_count (wallet (row_at (features_of mixed_wallets) 0))
                (entries_of mixed_wallets))%nat as Hn by (vm_compute; lia).
  split; [vm_compute; lia|].
  exact (active_days_span float_of_digits mixed_wallets _ _ _ H He Hr Hn).
Defined.

Lemma action_case_insensitive_witness :
  lower_action <$> [mk_tx "W" "Repay" 10 (PyInt 1000000)]
    = lower_action <$> [mk_tx "W" "repay" 10 (PyInt 1000000)] ∧
  engineer_features float_of_digits [mk_tx "W" "Repay" 10 (PyInt 1000000)]
    = engineer_features float_of_digits [mk_tx "W" "repay" 10 (PyInt 1000000)].
Proof.
  assert (lower_action <$> [mk_tx "W" "Repay" 10 (PyInt 1000000)]
          = lower_action <$> [mk_tx "W" "repay" 10 (PyInt 1000000)]) as H by reflexivity.
  split; [exact H|].
  exact (action_case_insensitive float_of_digits _ _ H).
Defined.

Lemma row_depends_on_own_records_witness :
  of_wallet "C" (entries_of mixed_wallets) = of_wallet "C" (entries_of five_depositors) ∧
  frame_loc (features_of mixed_wallets) "C" = frame_loc (features_of five_depositors) "C".
Proof.
  assert (engineer_features float_of_digits mixed_wallets = Ok (features_of mixed_wallets))
    as H by (apply features_of_Ok; by vm_compute).
  assert (entries float_of_digits mixed_wallets = Ok (entries_of mixed_wallets))
    as He by (apply entries_of_Ok; by vm_compute).
  assert (engineer_features float_of_digits five_depositors = Ok (features_of five_depositors))
    as H' by (apply features_of_Ok; by vm_compute).
  assert (entries float_of_digits five_depositors = Ok (entries_of five_depositors))
    as He' by (apply entries_of_Ok; by vm_compute).
  assert (of_wallet "C" (entries_of mixed_wallets)
          = of_wallet "C" (entries_of five_depositors)) as E by (by vm_compute).
  split; [exact E|].
  exact (row_depends_on_own_records float_of_digits _ _ _ _ _ _ "C" H He H' He' E).
Defined.

Lemma huge_amount_aborts_witness :
  float_of_int (2 ^ 1024) = Raise OverflowError ∧
  engineer_features float_of_digits (scenario ++ huge_amount :: scenario)
    = Raise OverflowError.
Proof.
  assert (float_of_int (2 ^ 1024) = Raise OverflowError) as Hz by (by vm_compute).
  split; [exact Hz|].
  exact (huge_amount_aborts float_of_digits huge_amount "W" "deposit" 10
           {| amount := Some (PyInt (2 ^ 1024)); assetPriceUSD := None |}
           (2 ^ 1024) scenario scenario eq_refl eq_refl eq_refl Hz).
Defined.

Lemma invalid_records_have_no_effect_witness :
  timestamp no_timestamp = None ∧
  engineer_features float_of_digits (scenario ++ no_timestamp :: scenario)
    = engineer_features float_of_digits (scenario ++ scenario).
Proof.
  split; [reflexivity|].
  apply (invalid_records_have_no_effect float_of_digits no_timestamp scenario scenario).
  - right. right. left. reflexivity.
  - discriminate.
Defined.

Lemma single_liquidation_wallet_witness :
  of_wallet "E" (entries_of mixed_wallets) = [("E", "liquidationcall", 50%Z, 5%float)] ∧
  liquidation_ratio (row_at (features_of mixed_wallets) 4) = 1%float ∧
  repay_borrow_ratio_count (row_at (features_of mixed_wallets) 4) = 1%float.
Proof.
  assert (engineer_features float_of_digits mixed_wallets = Ok (features_of mixed_wallets))
    as H by (apply features_of_Ok; by vm_compute).
  assert (entries float_of_digits mixed_wallets = Ok (entries_of mixed_wallets))
    as He by (apply entries_of_Ok; by vm_compute).
  assert (row_at (features_of mixed_wallets) 4 ∈ rows (features_of mixed_wallets)) as Hr.
  { eapply list_elem_of_lookup_2. apply row_at_elem. by vm_compute. }
  assert (of_wallet (wallet (row_at (features_of mixed_wallets) 4)) (entries_of mixed_wallets)
          = [("E", "liquidationcall", 50%Z, 5%float)]) as Hw by (by vm_compute).
  split; [by vm_compute|].
  exact (proj2 (single_liquidation_wallet float_of_digits mixed_wallets _ _ _ _
                  H He Hr Hw eq_refl)).
Defined.

Lemma counters_are_exact_witness :
  let r := {| wallet := "D"; total_tx := 3; total_usd_all_actions := 12;
              repay_borrow_ratio_count := 0.5; num_liquidations := 0;
              liquidation_ratio := 0;
              active_days := 2 / 86400;
              avg_time_between_tx_days := 2 / 86400 / 3 |}%float in
  r ∈ rows (features_of mixed_wallets) ∧
  tx_count "D" (get_ok [] (entries float_of_digits mixed_wallets)) = 3%nat ∧
  total_tx r = float_of_int64 (Z.of_nat 3 `min` 2 ^ 53).
Proof.
  intros r.
  assert (r ∈ rows (features_of mixed_wallets)) as Hr.
  { apply list_elem_of_lookup. exists 3%nat. by vm_compute. }
  split_and!; [done|by vm_compute|].
  refine (proj1 (counters_are_exact float_of_digits mixed_wallets
            (features_of mixed_wallets) (get_ok [] (entries float_of_digits mixed_wallets))
            r _ _ Hr)); by vm_compute.
Defined.

Lemma scored_Ok raw :
  (if generate_credit_scores (λ X, X) modulo_clusters plain_mean (features_of raw)
   is Ok _ then true else false) = true →
  generate_credit_scores (λ X, X) modulo_clusters plain_mean (features_of raw)
  = Ok (scored raw).
Proof. unfold scored. by destruct (generate_credit_scores _ _ _ _). Qed.

Lemma scored_table_shape_witness :
  frame_empty (features_of mixed_wallets) = false ∧
  rows (scored mixed_wallets) = rows (features_of mixed_wallets) ∧
  cluster (scored mixed_wallets) = Some [0; 1; 2; 3; 4; 0]%Z.
Proof.
  assert (generate_credit_scores (λ X, X) modulo_clusters plain_mean
            (features_of mixed_wallets) = Ok (scored mixed_wallets)) as H
    by (apply scored_Ok; by vm_compute).
  assert (frame_empty (features_of mixed_wallets) = false) as He by (by vm_compute).
  split; [exact He|].
  destruct (scored_table_shape (λ X, X) modulo_clusters plain_mean _ _ H He)
    as (Hr & _).
  split; [exact Hr|by vm_compute].
Defined.

Lemma scorer_exceptions_witness :
  generate_credit_scores (λ X, X) modulo_clusters plain_mean (features_of scenario_shifted)
    = Raise ValueError ∧
  frame_empty (features_of scenario_shifted) = false.
Proof.
  assert (generate_credit_scores (λ X, X) modulo_clusters plain_mean
            (features_of scenario_shifted) = Raise ValueError) as H by (by vm_compute).
  split; [exact H|].
  exact (proj1 (scorer_exceptions (λ X, X) modulo_clusters plain_mean _ _ H)).
Defined.

Lemma scorer_returns_witness :
  modulo_clusters N_CLUSTERS (model_input (rows (features_of five_depositors)))
    = Ok [0; 1; 2; 3; 4]%Z ∧
  ∃ scores,
    generate_credit_scores (λ X, X) modulo_clusters plain_mean (features_of five_depositors)
    = Ok {| rows := rows (features_of five_depositors);
            cluster := Some [0; 1; 2; 3; 4]%Z; credit_score := Some scores |}.
Proof.
  assert (modulo_clusters N_CLUSTERS (model_input (rows (features_of five_depositors)))
          = Ok [0; 1; 2; 3; 4]%Z) as Hk by (by vm_compute).
  split; [exact Hk|].
  apply (scorer_returns (λ X, X) modulo_clusters plain_mean).
  - by vm_compute.
  - exact Hk.
  - by vm_compute.
  - intros c Hc. apply elem_of_five in Hc.
    destruct Hc as [->|[->|[->|[->| ->]]]]; by vm_compute.
Defined.

Lemma scores_follow_health_witness :
  credit_score (scored ranked_wallets) = Some [750; 250; 500; 0; 1000]%Z ∧
  (250 + 250 ≤ 500)%Z.
Proof.
  assert (generate_credit_scores (λ X, X) modulo_clusters plain_mean
            (features_of ranked_wallets) = Ok (scored ranked_wallets)) as H
    by (apply scored_Ok; by vm_compute).
  assert (cluster (scored ranked_wallets) = Some [0; 1; 2; 3; 4]%Z) as Hl
    by (by vm_compute).
  assert (credit_score (scored ranked_wallets) = Some [750; 250; 500; 0; 1000]%Z) as Hs
    by (by vm_compute).
  split; [exact Hs|].
  assert (rows (scored ranked_wallets) !! 1%nat = Some (row_at (scored ranked_wallets) 1))
    as H1 by (apply row_at_elem; by vm_compute).
  assert (rows (scored ranked_wallets) !! 2%nat = Some (row_at (scored ranked_wallets) 2))
    as H2 by (apply row_at_elem; by vm_compute).
  refine (proj1 (scores_follow_health (λ X, X) modulo_clusters plain_mean
            (features_of ranked_wallets) (scored ranked_wallets)
            [0; 1; 2; 3; 4]%Z [750; 250; 500; 0; 1000]%Z 1 2 _ _ 1%Z 2%Z 250%Z 500%Z
            modulo_clusters_range H Hl Hs H1 H2 eq_refl eq_refl eq_refl eq_refl) _).
  by vm_compute.
Defined.

Lemma some_wallet_scores_0_witness :
  credit_score (scored mixed_wallets) = Some [500; 0; 500; 250; 0; 500]%Z ∧
  ∃ i r, rows (scored mixed_wallets) !! i = Some r ∧
         [500; 0; 500; 250; 0; 500]%Z !! i = Some 0%Z.
Proof.
  assert (generate_credit_scores (λ X, X) modulo_clusters plain_mean
            (features_of mixed_wallets) = Ok (scored mixed_wallets)) as H
    by (apply scored_Ok; by vm_compute).
  assert (credit_score (scored mixed_wallets) = Some [500; 0; 500; 250; 0; 500]%Z) as Hs
    by (by vm_compute).
  split; [exact Hs|].
  apply (some_wallet_scores_0 (λ X, X) modulo_clusters plain_mean
           (features_of mixed_wallets) (scored mixed_wallets) _
           modulo_clusters_range H); [by vm_compute|exact Hs].
Defined.

Lemma main_saves_every_wallet_witness :
  load_transaction_data (Records mixed_wallets) ≠ [] ∧
  ∃ table, run_main (Records mixed_wallets) = Ok (Saved table) ∧
           report_wallet <$> table = ["A"; "B"; "C"; "D"; "E"; "F"].
Proof.
  assert (load_transaction_data (Records mixed_wallets) ≠ []) as Hne by discriminate.
  split; [exact Hne|]. unfold run_main.
  destruct (main float_of_digits (λ X, X) modulo_clusters plain_mean
              (Records mixed_wallets)) as [o|] eqn:E; [|by vm_compute in E].
  destruct (main_saves_every_wallet float_of_digits (λ X, X) modulo_clusters plain_mean
              (Records mixed_wallets) o E Hne)
    as (df & df' & scores & table & Hdf & _ & _ & -> & _ & Hw & _).
  exists table. split; [reflexivity|]. rewrite Hw.
  change (load_transaction_data (Records mixed_wallets)) with mixed_wallets in Hdf.
  assert (engineer_features float_of_digits mixed_wallets = Ok (features_of mixed_wallets))
    as H by (apply features_of_Ok; by vm_compute).
  rewrite H in Hdf. injection Hdf as <-. by vm_compute.
Defined.


Lemma model_input_rows_witness :
  rows (features_of negative_amount) !! 0%nat
    = Some (row_at (features_of negative_amount) 0) ∧
  model_input (rows (features_of negative_amount)) !! 0%nat =
    Some ((λ x, if is_finite x then x else 0%float)
            <$> MODEL_FEATURE_COLS (row_at (features_of negative_amount) 0)).
Proof.
  assert (rows (features_of negative_amount) !! 0%nat
          = Some (row_at (features_of negative_amount) 0)) as H
    by (apply row_at_elem; by vm_compute).
  split; [exact H|].
  exact (proj2 (model_input_rows (rows (features_of negative_amount))) 0%nat _ H).
Defined.

Lemma main_exits_early_witness :
  load_transaction_data FileNotFound = [] ∧ run_main FileNotFound = Ok Exited.
Proof.
  split; [reflexivity|].
  exact (proj2 (main_exits_early float_of_digits (λ X, X) modulo_clusters plain_mean
                  FileNotFound) eq_refl).
Defined.
